(** * VOP3P packed-lane instructions of the Vega ISA model

    A shallow embedding of [src/arch/amdgpu/vega/insts/vop3p.cc]: the
    saturation helpers, the per-element lambdas ([opImpl]) of the packed and
    dot-product instructions, and the lane loops that write a destination
    vector register under the wavefront's execution mask.

    Machine integers are values of [Z]; every C++ conversion and every
    wrap-around is written out through [to_int32], [to_uint32] and their
    16- and 64-bit siblings. *)

From Stdlib Require Import ZArith Lia Bool.
From stdpp Require Import base list functions.

Local Open Scope Z_scope.

(** ** Fixed-width integers *)

(** Reduction of [z] to an unsigned [w]-bit value. *)
Definition wrapU (w z : Z) : Z := z mod 2 ^ w.

(** Reduction of [z] to a signed (two's complement) [w]-bit value. *)
Definition wrapS (w z : Z) : Z := (z + 2 ^ (w - 1)) mod 2 ^ w - 2 ^ (w - 1).

Definition to_uint16 : Z -> Z := wrapU 16.
Definition to_uint32 : Z -> Z := wrapU 32.
Definition to_uint64 : Z -> Z := wrapU 64.
Definition to_int16 : Z -> Z := wrapS 16.
Definition to_int32 : Z -> Z := wrapS 32.

Definition is_uint16 (z : Z) : Prop := 0 <= z < 2 ^ 16.
Definition is_uint32 (z : Z) : Prop := 0 <= z < 2 ^ 32.
Definition is_int16 (z : Z) : Prop := - 2 ^ 15 <= z < 2 ^ 15.
Definition is_int32 (z : Z) : Prop := - 2 ^ 31 <= z < 2 ^ 31.

(** [std::clamp(v, lo, hi)]: [(v < lo) ? lo : (hi < v) ? hi : v]. *)
Definition std_clamp (v lo hi : Z) : Z :=
  if v <? lo then lo else if hi <? v then hi else v.

(** ** Bit-field helpers *)

Module Bitfield.

(** Modelled from the spec: the bit-field helpers [mask], [bits] and [sext]
    that vop3p.cc calls are declared in a header outside vop3p.cc.
    [mask(nbits)] is the 64-bit word whose low [nbits] bits are set. *)
Definition mask (nbits : Z) : Z :=
  if 64 <=? nbits then Z.ones 64 else Z.shiftl 1 nbits - 1.

(** Modelled from the spec: [bits(val, first, last)] is the field of [val]
    between bit [last] and bit [first], both included, moved down to bit 0
    (the spec's [bits(S0,3:0)] and "element i occupies bits [i*w, i*w+w-1]"). *)
Definition bits (val first last : Z) : Z :=
  Z.land (Z.shiftr val last) (mask (first - last + 1)).

(** Modelled from the spec: [sext<N>(val)] sign-extends an [N]-bit field
    held in a 64-bit word: when bit [N-1] is set every bit above it is set
    as well, otherwise the word is returned as it is. *)
Definition sext (N val : Z) : Z :=
  if Z.testbit val (N - 1)
  then Z.lor val (Z.land (Z.lnot (mask N)) (Z.ones 64))
  else val.

End Bitfield.
Import Bitfield.

(** ** Saturation helpers (vop3p.cc, lines 45-99) *)

(** [dotClampI<N>(int32_t value, bool clamp)]. *)
Definition dotClampI (N value : Z) (clamp : bool) : Z :=
  if negb clamp then to_int32 value
  else
    let min := to_int32 (- Z.shiftl 1 (N - 1)) in
    let max := to_int32 (Z.shiftl 1 (N - 1) - 1) in
    std_clamp value min max.

(** [dotClampU<N>(uint32_t value, bool clamp)].  Both branches pass through
    [int32_t]: the first by its [static_cast<int32_t>], the second because
    the call is [std::clamp<int32_t>], whose three parameters are
    [const int32_t&]; the result is converted back to the [uint32_t] return
    type. *)
Definition dotClampU (N value : Z) (clamp : bool) : Z :=
  if negb clamp then to_uint32 (to_int32 value)
  else
    let min := to_uint32 0 in
    let max := to_uint32 (to_int32 (Z.shiftl 1 N - 1)) in
    to_uint32 (std_clamp (to_int32 value) (to_int32 min) (to_int32 max)).

(** [clampI16(int32_t value, bool clamp)], returning [int16_t]. *)
Definition clampI16 (value : Z) (clamp : bool) : Z :=
  if negb clamp then to_int16 value
  else to_int16 (std_clamp value (to_int32 (- 2 ^ 15)) (to_int32 (2 ^ 15 - 1))).

(** [clampU16(uint32_t value, bool clamp)], returning [uint16_t]. *)
Definition clampU16 (value : Z) (clamp : bool) : Z :=
  if negb clamp then to_uint16 value
  else to_uint16 (std_clamp value (to_uint32 0) (to_uint32 (2 ^ 16 - 1))).

(** ** Reference notions used to state the laws *)

(** Two's-complement truncation of [v] to [N] bits, sign-extended back:
    keep the low [N] bits and read bit [N-1] as the sign. *)
Definition truncate_sext (N v : Z) : Z :=
  let t := v mod 2 ^ N in
  if t <? 2 ^ (N - 1) then t else t - 2 ^ N.

(** Saturation of an exact integer to the range [lo, hi]. *)
Definition saturate (lo hi v : Z) : Z := Z.max lo (Z.min hi v).

(** The signed [N]-bit range. *)
Definition in_signed_range (N v : Z) : Prop :=
  - 2 ^ (N - 1) <= v <= 2 ^ (N - 1) - 1.

(** ** The floating-point engine *)

(** The half-precision primitives come from a floating-point library that
    is not part of vop3p.cc, and [float] arithmetic is the host's.  They are
    taken as an interface: every primitive maps bit patterns to bit
    patterns, and the library's primitives also thread the status register
    they are handed. *)
Class FpLib := {
  FPSCR : Type;
  fpscr_new : FPSCR;
  fplibMulAdd : Z -> Z -> Z -> FPSCR -> Z * FPSCR;
  fplibAdd : Z -> Z -> FPSCR -> Z * FPSCR;
  fplibMul : Z -> Z -> FPSCR -> Z * FPSCR;
  fplibMin : Z -> Z -> FPSCR -> Z * FPSCR;
  fplibMax : Z -> Z -> FPSCR -> Z * FPSCR;
  fplibConvert_16_32_TIEEVEN : Z -> FPSCR -> Z * FPSCR;
  float_add : Z -> Z -> Z;
  float_lt : Z -> Z -> bool
}.

(** An engine that answers zero everywhere; it only serves to run the
    integer instructions on concrete states. *)
Definition nullFpLib : FpLib := {|
  FPSCR := unit;
  fpscr_new := tt;
  fplibMulAdd := fun _ _ _ s => (0, s);
  fplibAdd := fun _ _ s => (0, s);
  fplibMul := fun _ _ s => (0, s);
  fplibMin := fun _ _ s => (0, s);
  fplibMax := fun _ _ s => (0, s);
  fplibConvert_16_32_TIEEVEN := fun _ s => (0, s);
  float_add := fun _ _ => 0;
  float_lt := fun _ _ => false
|}.

(** [clampF16(uint16_t value, bool clamp)]: [fplibMin] against one, then
    [fplibMax] against zero, each with a status register of its own. *)
Definition clampF16 `{FpLib} (value : Z) (clamp : bool) : Z :=
  if negb clamp then value
  else
    let one := 0x3c00 in
    let zero := 0x0 in
    let imm := fst (fplibMin value one fpscr_new) in
    fst (fplibMax imm zero fpscr_new).

(** [clampF32(float value, bool clamp)]: [std::clamp(value, 0.0f, 1.0f)] on
    bit patterns, the comparisons being the host's [<] on [float]. *)
Definition clampF32 `{FpLib} (value : Z) (clamp : bool) : Z :=
  if negb clamp then value
  else
    let lo := 0x00000000 in
    let hi := 0x3f800000 in
    if float_lt value lo then lo else if float_lt hi value then hi else value.

(** ** Wavefront state and vector operands *)

Definition NumVecElemPerVecReg : nat := 64.

(** The execution mask is a 64-bit set, one bit per lane; the vector
    register file maps a register index to its lanes. *)
Record Wavefront := mkWavefront {
  execMaskBits : Z;
  vrf : nat -> list Z
}.

(** [wf->execMask(lane)]. *)
Definition execMask (wf : Wavefront) (lane : nat) : bool :=
  Z.testbit (execMaskBits wf) (Z.of_nat lane).

(** The fields of a VOP3P instruction word that the instructions read. *)
Record InFmt_VOP3P := mkInFmt {
  VDST : nat;
  CLMP : bool;
  SRC0 : nat;
  SRC1 : nat;
  SRC2 : nat
}.

(** Modelled from the spec: the register-file collaborator's
    [readLane(register, laneIndex)]; the operand classes are declared
    outside vop3p.cc. *)
Definition readLane (wf : Wavefront) (reg lane : nat) : Z :=
  vrf wf reg !!! lane.

(** Modelled from the spec: [writeLane(register, laneIndex, uint32)]. *)
Definition writeLane (wf : Wavefront) (reg lane : nat) (v : Z) : Wavefront :=
  {| execMaskBits := execMaskBits wf;
     vrf := <[reg := <[lane := v]> (vrf wf reg)]> (vrf wf) |}.

(** Modelled from the spec: [readSrc()] of a source operand reads every
    lane of the source register before any result is computed. *)
Definition readSrc (wf : Wavefront) (reg : nat) : list Z := vrf wf reg.

(** Modelled from the spec: a destination operand starts as a buffer of
    [NumVecElemPerVecReg] lanes that the instruction fills. *)
Definition newVecOperand : list Z := replicate NumVecElemPerVecReg 0.

(** Modelled from the spec: one lane of [write()]: the register file
    "writes only masked-active destination lanes". *)
Definition writeStep (wf : Wavefront) (reg : nat) (buf : list Z)
    (w : Wavefront) (lane : nat) : Wavefront :=
  if execMask wf lane then writeLane w reg lane (buf !!! lane) else w.

(** Modelled from the spec: [write()] of a destination operand hands the
    buffer to the register file, lane after lane. *)
Definition write (wf : Wavefront) (reg : nat) (buf : list Z) : Wavefront :=
  foldl (writeStep wf reg buf) wf (seq 0 NumVecElemPerVecReg).

(** One iteration of the lane loop shared by every [execute]:
    [if (wf->execMask(lane)) vdst[lane] = f(lane);]. *)
Definition laneStep (wf : Wavefront) (f : nat -> Z) (vdst : list Z)
    (lane : nat) : list Z :=
  if execMask wf lane then <[lane := f lane]> vdst else vdst.

(** The loop itself:
    [for (lane = 0; lane < NumVecElemPerVecReg; ++lane) ...]. *)
Definition forActiveLanes (wf : Wavefront) (f : nat -> Z) (vdst : list Z)
  : list Z :=
  foldl (laneStep wf f) vdst (seq 0 NumVecElemPerVecReg).

(** ** Lane codec and the two drivers *)

(** Modelled from the spec: [splitElements(lane, elementWidth)], "element i
    occupies bits [i*w, i*w + w - 1]", element 0 being the low-order field. *)
Definition splitElements (w lane : Z) : list Z :=
  (fun i => bits lane (i * w + w - 1) (i * w)) <$> seqZ 0 (32 / w).

(** Modelled from the spec: [joinElements(elements, elementWidth)], "each
    element's low elementWidth bits are placed at its slot, higher bits
    ... are discarded". *)
Definition joinElements (w : Z) (elements : list Z) : Z :=
  foldr (fun e acc => Z.lor (Z.land e (Z.ones w)) (Z.shiftl acc w)) 0 elements.

(** The element types of the packed 16-bit instructions ([half] is an alias
    of [uint16_t] in vop3p.cc). *)
Inductive ElemT := int16_t | uint16_t.

(** A raw 16-bit field read as a value of the element type. *)
Definition word (T : ElemT) (raw : Z) : Z :=
  match T with
  | int16_t => to_int16 raw
  | uint16_t => to_uint16 raw
  end.

(** Modelled from the spec: the lane-wise driver [vop3pHelper<T>] for a
    two-operand [opImpl] (section 4.4: "for each lane index where the
    execution mask is true: split operands into elements, call op per
    element position, join results, write to the destination lane
    register"); the driver itself is declared outside vop3p.cc. *)
Definition vop3pHelper2 (T : ElemT) (fOpImpl : Z -> Z -> bool -> Z)
    (inst : InFmt_VOP3P) (wf : Wavefront) : Wavefront :=
  let S0 := readSrc wf (SRC0 inst) in
  let S1 := readSrc wf (SRC1 inst) in
  let clamp := CLMP inst in
  let D := forActiveLanes wf (fun lane =>
             joinElements 16
               (zip_with (fun a b => fOpImpl (word T a) (word T b) clamp)
                  (splitElements 16 (S0 !!! lane))
                  (splitElements 16 (S1 !!! lane))))
             newVecOperand in
  write wf (VDST inst) D.

(** Modelled from the spec: the same driver for a three-operand [opImpl]
    (the multiply-add instructions). *)
Definition vop3pHelper3 (T : ElemT) (fOpImpl : Z -> Z -> Z -> bool -> Z)
    (inst : InFmt_VOP3P) (wf : Wavefront) : Wavefront :=
  let S0 := readSrc wf (SRC0 inst) in
  let S1 := readSrc wf (SRC1 inst) in
  let S2 := readSrc wf (SRC2 inst) in
  let clamp := CLMP inst in
  let D := forActiveLanes wf (fun lane =>
             joinElements 16
               (zip_with (fun f c => f c)
                  (zip_with (fun a b c =>
                               fOpImpl (word T a) (word T b) (word T c) clamp)
                     (splitElements 16 (S0 !!! lane))
                     (splitElements 16 (S1 !!! lane)))
                  (splitElements 16 (S2 !!! lane))))
             newVecOperand in
  write wf (VDST inst) D.

(** Modelled from the spec: the dot-product driver [dotHelper] (section
    4.5): on every active lane the whole 32-bit lanes of the three sources
    and the saturate flag go to [opImpl], whose scalar is the lane's
    result; the driver itself is declared outside vop3p.cc. *)
Definition dotHelper (fOpImpl : Z -> Z -> Z -> bool -> Z)
    (inst : InFmt_VOP3P) (wf : Wavefront) : Wavefront :=
  let S0 := readSrc wf (SRC0 inst) in
  let S1 := readSrc wf (SRC1 inst) in
  let S2 := readSrc wf (SRC2 inst) in
  let clamp := CLMP inst in
  let D := forActiveLanes wf (fun lane =>
             fOpImpl (S0 !!! lane) (S1 !!! lane) (S2 !!! lane) clamp)
             newVecOperand in
  write wf (VDST inst) D.

(** ** Packed 16-bit instructions (vop3p.cc, lines 132-341)

    Each module holds the instruction's lambda [opImpl] and its [execute].
    Operands of type [int16_t] or [uint16_t] are promoted to [int] before
    any arithmetic, so sums and products are taken in [int32_t]. *)

Module Inst_VOP3P__V_PK_MAD_I16.
Definition opImpl (S0 S1 S2 : Z) (clamp : bool) : Z :=
  clampI16 (to_int32 (to_int32 (S0 * S1) + S2)) clamp.
Definition execute := vop3pHelper3 int16_t opImpl.
End Inst_VOP3P__V_PK_MAD_I16.

Module Inst_VOP3P__V_PK_MUL_LO_U16.
Definition opImpl (S0 S1 : Z) (_ : bool) : Z :=
  let D := to_uint32 (to_int32 (S0 * S1)) in
  let Dh := to_uint16 (Z.land D 0xFFFF) in
  Dh.
Definition execute := vop3pHelper2 uint16_t opImpl.
End Inst_VOP3P__V_PK_MUL_LO_U16.

Module Inst_VOP3P__V_PK_ADD_I16.
Definition opImpl (S0 S1 : Z) (clamp : bool) : Z :=
  clampI16 (to_int32 (S0 + S1)) clamp.
Definition execute := vop3pHelper2 int16_t opImpl.
End Inst_VOP3P__V_PK_ADD_I16.

Module Inst_VOP3P__V_PK_SUB_I16.
Definition opImpl (S0 S1 : Z) (clamp : bool) : Z :=
  clampI16 (to_int32 (S0 - S1)) clamp.
Definition execute := vop3pHelper2 int16_t opImpl.
End Inst_VOP3P__V_PK_SUB_I16.

Module Inst_VOP3P__V_PK_LSHLREV_B16.
Definition opImpl (S0 S1 : Z) (_ : bool) : Z :=
  let shift_val := to_uint32 (bits S0 3 0) in
  to_uint16 (to_int32 (Z.shiftl S1 shift_val)).
Definition execute := vop3pHelper2 uint16_t opImpl.
End Inst_VOP3P__V_PK_LSHLREV_B16.

Module Inst_VOP3P__V_PK_LSHRREV_B16.
Definition opImpl (S0 S1 : Z) (_ : bool) : Z :=
  let shift_val := to_uint32 (bits S0 3 0) in
  to_uint16 (Z.shiftr S1 shift_val).
Definition execute := vop3pHelper2 uint16_t opImpl.
End Inst_VOP3P__V_PK_LSHRREV_B16.

Module Inst_VOP3P__V_PK_ASHRREV_B16.
Definition opImpl (S0 S1 : Z) (clamp : bool) : Z :=
  let S1e := to_int32 S1 in
  let shift_val := to_uint32 (bits S0 3 0) in
  to_int16 (Z.shiftr S1e shift_val).
Definition execute := vop3pHelper2 int16_t opImpl.
End Inst_VOP3P__V_PK_ASHRREV_B16.

Module Inst_VOP3P__V_PK_MAX_I16.
Definition opImpl (S0 S1 : Z) (clamp : bool) : Z :=
  clampI16 (if S0 >=? S1 then S0 else S1) clamp.
Definition execute := vop3pHelper2 int16_t opImpl.
End Inst_VOP3P__V_PK_MAX_I16.

Module Inst_VOP3P__V_PK_MIN_I16.
Definition opImpl (S0 S1 : Z) (clamp : bool) : Z :=
  clampI16 (if S0 <? S1 then S0 else S1) clamp.
Definition execute := vop3pHelper2 int16_t opImpl.
End Inst_VOP3P__V_PK_MIN_I16.

(** [int] arithmetic as the language defines it: a product or a sum that
    leaves [int32_t] is undefined behaviour, rendered as [None]. *)
Definition is_int32b (z : Z) : bool := (- 2 ^ 31 <=? z) && (z <? 2 ^ 31).
Definition int_mul (a b : Z) : option Z :=
  if is_int32b (a * b) then Some (a * b) else None.
Definition int_add (a b : Z) : option Z :=
  if is_int32b (a + b) then Some (a + b) else None.

(** [S0 * S1 + S2] is computed in [int] after promotion and can overflow
    for [uint16_t] operands (from 2^31 on).  [opImpl_checked] is the lambda
    with that overflow marked as undefined: [None] where the source has no
    defined result.  [opImpl] is the same lambda with the overflow wrapped
    to 32 bits; it agrees with the source wherever the source is defined,
    and only serves to make [execute] total. *)
Module Inst_VOP3P__V_PK_MAD_U16.
Definition opImpl_checked (S0 S1 S2 : Z) (clamp : bool) : option Z :=
  match int_mul S0 S1 with
  | Some p =>
      match int_add p S2 with
      | Some s => Some (clampU16 (to_uint32 s) clamp)
      | None => None
      end
  | None => None
  end.
Definition opImpl (S0 S1 S2 : Z) (clamp : bool) : Z :=
  clampU16 (to_uint32 (to_int32 (to_int32 (S0 * S1) + S2))) clamp.
Definition execute := vop3pHelper3 uint16_t opImpl.
End Inst_VOP3P__V_PK_MAD_U16.

Module Inst_VOP3P__V_PK_ADD_U16.
Definition opImpl (S0 S1 : Z) (clamp : bool) : Z :=
  clampU16 (to_uint32 (to_int32 (S0 + S1))) clamp.
Definition execute := vop3pHelper2 uint16_t opImpl.
End Inst_VOP3P__V_PK_ADD_U16.

Module Inst_VOP3P__V_PK_SUB_U16.
Definition opImpl (S0 S1 : Z) (clamp : bool) : Z :=
  clampU16 (to_uint32 (to_int32 (S0 - S1))) clamp.
Definition execute := vop3pHelper2 uint16_t opImpl.
End Inst_VOP3P__V_PK_SUB_U16.

Module Inst_VOP3P__V_PK_MAX_U16.
Definition opImpl (S0 S1 : Z) (clamp : bool) : Z :=
  clampU16 (to_uint32 (if S0 >=? S1 then S0 else S1)) clamp.
Definition execute := vop3pHelper2 uint16_t opImpl.
End Inst_VOP3P__V_PK_MAX_U16.

Module Inst_VOP3P__V_PK_MIN_U16.
Definition opImpl (S0 S1 : Z) (clamp : bool) : Z :=
  clampU16 (to_uint32 (if S0 <? S1 then S0 else S1)) clamp.
Definition execute := vop3pHelper2 uint16_t opImpl.
End Inst_VOP3P__V_PK_MIN_U16.

Module Inst_VOP3P__V_PK_FMA_F16.
Definition opImpl `{FpLib} (S0 S1 S2 : Z) (clamp : bool) : Z :=
  clampF16 (fst (fplibMulAdd S2 S0 S1 fpscr_new)) clamp.
Definition execute `{FpLib} := vop3pHelper3 uint16_t opImpl.
End Inst_VOP3P__V_PK_FMA_F16.

Module Inst_VOP3P__V_PK_ADD_F16.
Definition opImpl `{FpLib} (S0 S1 : Z) (clamp : bool) : Z :=
  clampF16 (fst (fplibAdd S0 S1 fpscr_new)) clamp.
Definition execute `{FpLib} := vop3pHelper2 uint16_t opImpl.
End Inst_VOP3P__V_PK_ADD_F16.

Module Inst_VOP3P__V_PK_MUL_F16.
Definition opImpl `{FpLib} (S0 S1 : Z) (clamp : bool) : Z :=
  clampF16 (fst (fplibMul S0 S1 fpscr_new)) clamp.
Definition execute `{FpLib} := vop3pHelper2 uint16_t opImpl.
End Inst_VOP3P__V_PK_MUL_F16.

Module Inst_VOP3P__V_PK_MIN_F16.
Definition opImpl `{FpLib} (S0 S1 : Z) (clamp : bool) : Z :=
  clampF16 (fst (fplibMin S0 S1 fpscr_new)) clamp.
Definition execute `{FpLib} := vop3pHelper2 uint16_t opImpl.
End Inst_VOP3P__V_PK_MIN_F16.

Module Inst_VOP3P__V_PK_MAX_F16.
Definition opImpl `{FpLib} (S0 S1 : Z) (clamp : bool) : Z :=
  clampF16 (fst (fplibMax S0 S1 fpscr_new)) clamp.
Definition execute `{FpLib} := vop3pHelper2 uint16_t opImpl.
End Inst_VOP3P__V_PK_MAX_F16.

(** ** Dot-product instructions (vop3p.cc, lines 343-594) *)

(** The first loop of every dot-product lambda:
    [S[i] = bits(Sr, i*INBITS+INBITS-1, i*INBITS)] for [i < 32 / INBITS]. *)
Definition unpack (INBITS Sr : Z) : list Z :=
  (fun i => bits Sr (i * INBITS + INBITS - 1) (i * INBITS))
    <$> seqZ 0 (32 / INBITS).

(** Signed families, first statement of the second loop:
    [C[i] = sext<INBITS>(S0[i]) * sext<INBITS>(S1[i])], a 64-bit product
    stored in an [int32_t]. *)
Definition productI (INBITS a b : Z) : Z :=
  to_int32 (to_uint64 (sext INBITS a * sext INBITS b)).

(** Signed families, second statement:
    [C[i] = sext<INBITS>(dotClampI<INBITS>(C[i], clamp) & mask(INBITS))]. *)
Definition elementI (INBITS : Z) (clamp : bool) (c : Z) : Z :=
  to_int32
    (sext INBITS (Z.land (to_uint64 (dotClampI INBITS c clamp)) (mask INBITS))).

(** Unsigned families: [C[i] = S0[i] * S1[i]] in [uint32_t]. *)
Definition productU (a b : Z) : Z := to_uint32 (a * b).

(** Unsigned families: [C[i] = dotClampU<INBITS>(C[i], clamp)]. *)
Definition elementU (INBITS : Z) (clamp : bool) (c : Z) : Z :=
  dotClampU INBITS c clamp.

(** The array [C] once the second loop has run. *)
Definition signedC (INBITS : Z) (clamp : bool) (S0r S1r : Z) : list Z :=
  zip_with (fun a b => elementI INBITS clamp (productI INBITS a b))
    (unpack INBITS S0r) (unpack INBITS S1r).

Definition unsignedC (INBITS : Z) (clamp : bool) (S0r S1r : Z) : list Z :=
  zip_with (fun a b => elementU INBITS clamp (productU a b))
    (unpack INBITS S0r) (unpack INBITS S1r).

(** [Csum += C[i]] for ascending [i], in [int32_t] and in [uint32_t]. *)
Definition sumI (C : list Z) : Z := foldl (fun Csum c => to_int32 (Csum + c)) 0 C.
Definition sumU (C : list Z) : Z := foldl (fun Csum c => to_uint32 (Csum + c)) 0 C.

(** The lambda of [V_DOT2_I32_I16], [V_DOT4_I32_I8] and [V_DOT8_I32_I4];
    the three differ in [INBITS] only. *)
Definition signedDot (INBITS : Z) (S0r S1r S2r : Z) (clamp : bool) : Z :=
  let S2 := to_int32 S2r in
  let Csum := sumI (signedC INBITS clamp S0r S1r) in
  let Csum := to_int32 (Csum + S2) in
  let rv := to_uint32 Csum in
  rv.

(** The lambda of [V_DOT2_U32_U16], [V_DOT4_U32_U8] and [V_DOT8_U32_U4]. *)
Definition unsignedDot (INBITS : Z) (S0r S1r S2 : Z) (clamp : bool) : Z :=
  let Csum := sumU (unsignedC INBITS clamp S0r S1r) in
  let Csum := to_uint32 (Csum + S2) in
  Csum.

Module Inst_VOP3P__V_DOT2_F32_F16.
Definition INBITS : Z := 16.
Definition opImpl `{FpLib} (S0r S1r S2r : Z) (clamp : bool) : Z :=
  let S0 := unpack INBITS S0r in
  let S1 := unpack INBITS S1r in
  let S2 := S2r in
  let Csum :=
    foldl (fun Csum ab =>
             let '(C, fpscr) := fplibMul (fst ab) (snd ab) fpscr_new in
             let conv := fst (fplibConvert_16_32_TIEEVEN C fpscr) in
             float_add Csum (clampF32 conv clamp))
          0x00000000 (zip S0 S1) in
  let Csum := float_add Csum S2 in
  let rv := Csum in
  rv.
Definition execute `{FpLib} := dotHelper opImpl.
End Inst_VOP3P__V_DOT2_F32_F16.

Module Inst_VOP3P__V_DOT2_I32_I16.
Definition INBITS : Z := 16.
Definition opImpl : Z -> Z -> Z -> bool -> Z := signedDot INBITS.
Definition execute := dotHelper opImpl.
End Inst_VOP3P__V_DOT2_I32_I16.

Module Inst_VOP3P__V_DOT2_U32_U16.
Definition INBITS : Z := 16.
Definition opImpl : Z -> Z -> Z -> bool -> Z := unsignedDot INBITS.
Definition execute := dotHelper opImpl.
End Inst_VOP3P__V_DOT2_U32_U16.

Module Inst_VOP3P__V_DOT4_I32_I8.
Definition INBITS : Z := 8.
Definition opImpl : Z -> Z -> Z -> bool -> Z := signedDot INBITS.
Definition execute := dotHelper opImpl.
End Inst_VOP3P__V_DOT4_I32_I8.

Module Inst_VOP3P__V_DOT4_U32_U8.
Definition INBITS : Z := 8.
Definition opImpl : Z -> Z -> Z -> bool -> Z := unsignedDot INBITS.
Definition execute := dotHelper opImpl.
End Inst_VOP3P__V_DOT4_U32_U8.

Module Inst_VOP3P__V_DOT8_I32_I4.
Definition INBITS : Z := 4.
Definition opImpl : Z -> Z -> Z -> bool -> Z := signedDot INBITS.
Definition execute := dotHelper opImpl.
End Inst_VOP3P__V_DOT8_I32_I4.

Module Inst_VOP3P__V_DOT8_U32_U4.
Definition INBITS : Z := 4.
Definition opImpl : Z -> Z -> Z -> bool -> Z := unsignedDot INBITS.
Definition execute := dotHelper opImpl.
End Inst_VOP3P__V_DOT8_U32_U4.

(** ** Accumulator-register moves (vop3p.cc, lines 596-632) *)

Module Inst_VOP3P__V_ACCVGPR_READ.
Definition execute (inst : InFmt_VOP3P) (wf : Wavefront) : Wavefront :=
  let src := readSrc wf (SRC0 inst) in
  let vdst := forActiveLanes wf (fun lane => src !!! lane) newVecOperand in
  write wf (VDST inst) vdst.
End Inst_VOP3P__V_ACCVGPR_READ.

Module Inst_VOP3P__V_ACCVGPR_WRITE.
Definition execute (inst : InFmt_VOP3P) (wf : Wavefront) : Wavefront :=
  let src := readSrc wf (SRC0 inst) in
  let vdst := forActiveLanes wf (fun lane => src !!! lane) newVecOperand in
  write wf (VDST inst) vdst.
End Inst_VOP3P__V_ACCVGPR_WRITE.

(** ** The instructions of the file, and their dispatch *)

Inductive Opcode :=
  | V_PK_MAD_I16 | V_PK_MUL_LO_U16 | V_PK_ADD_I16 | V_PK_SUB_I16
  | V_PK_LSHLREV_B16 | V_PK_LSHRREV_B16 | V_PK_ASHRREV_B16
  | V_PK_MAX_I16 | V_PK_MIN_I16
  | V_PK_MAD_U16 | V_PK_ADD_U16 | V_PK_SUB_U16 | V_PK_MAX_U16 | V_PK_MIN_U16
  | V_PK_FMA_F16 | V_PK_ADD_F16 | V_PK_MUL_F16 | V_PK_MIN_F16 | V_PK_MAX_F16
  | V_DOT2_F32_F16
  | V_DOT2_I32_I16 | V_DOT2_U32_U16
  | V_DOT4_I32_I8 | V_DOT4_U32_U8
  | V_DOT8_I32_I4 | V_DOT8_U32_U4
  | V_ACCVGPR_READ | V_ACCVGPR_WRITE.

Definition execute `{FpLib} (op : Opcode)
  : InFmt_VOP3P -> Wavefront -> Wavefront :=
  match op with
  | V_PK_MAD_I16 => Inst_VOP3P__V_PK_MAD_I16.execute
  | V_PK_MUL_LO_U16 => Inst_VOP3P__V_PK_MUL_LO_U16.execute
  | V_PK_ADD_I16 => Inst_VOP3P__V_PK_ADD_I16.execute
  | V_PK_SUB_I16 => Inst_VOP3P__V_PK_SUB_I16.execute
  | V_PK_LSHLREV_B16 => Inst_VOP3P__V_PK_LSHLREV_B16.execute
  | V_PK_LSHRREV_B16 => Inst_VOP3P__V_PK_LSHRREV_B16.execute
  | V_PK_ASHRREV_B16 => Inst_VOP3P__V_PK_ASHRREV_B16.execute
  | V_PK_MAX_I16 => Inst_VOP3P__V_PK_MAX_I16.execute
  | V_PK_MIN_I16 => Inst_VOP3P__V_PK_MIN_I16.execute
  | V_PK_MAD_U16 => Inst_VOP3P__V_PK_MAD_U16.execute
  | V_PK_ADD_U16 => Inst_VOP3P__V_PK_ADD_U16.execute
  | V_PK_SUB_U16 => Inst_VOP3P__V_PK_SUB_U16.execute
  | V_PK_MAX_U16 => Inst_VOP3P__V_PK_MAX_U16.execute
  | V_PK_MIN_U16 => Inst_VOP3P__V_PK_MIN_U16.execute
  | V_PK_FMA_F16 => Inst_VOP3P__V_PK_FMA_F16.execute
  | V_PK_ADD_F16 => Inst_VOP3P__V_PK_ADD_F16.execute
  | V_PK_MUL_F16 => Inst_VOP3P__V_PK_MUL_F16.execute
  | V_PK_MIN_F16 => Inst_VOP3P__V_PK_MIN_F16.execute
  | V_PK_MAX_F16 => Inst_VOP3P__V_PK_MAX_F16.execute
  | V_DOT2_F32_F16 => Inst_VOP3P__V_DOT2_F32_F16.execute
  | V_DOT2_I32_I16 => Inst_VOP3P__V_DOT2_I32_I16.execute
  | V_DOT2_U32_U16 => Inst_VOP3P__V_DOT2_U32_U16.execute
  | V_DOT4_I32_I8 => Inst_VOP3P__V_DOT4_I32_I8.execute
  | V_DOT4_U32_U8 => Inst_VOP3P__V_DOT4_U32_U8.execute
  | V_DOT8_I32_I4 => Inst_VOP3P__V_DOT8_I32_I4.execute
  | V_DOT8_U32_U4 => Inst_VOP3P__V_DOT8_U32_U4.execute
  | V_ACCVGPR_READ => Inst_VOP3P__V_ACCVGPR_READ.execute
  | V_ACCVGPR_WRITE => Inst_VOP3P__V_ACCVGPR_WRITE.execute
  end.

(** The six integer dot-product instructions, with their element width,
    their lambda and the array [C] that the lambda sums. *)
Inductive IntDot :=
  | DOT2_I32_I16 | DOT2_U32_U16
  | DOT4_I32_I8 | DOT4_U32_U8
  | DOT8_I32_I4 | DOT8_U32_U4.

Definition intDotOpcode (d : IntDot) : Opcode :=
  match d with
  | DOT2_I32_I16 => V_DOT2_I32_I16 | DOT2_U32_U16 => V_DOT2_U32_U16
  | DOT4_I32_I8 => V_DOT4_I32_I8 | DOT4_U32_U8 => V_DOT4_U32_U8
  | DOT8_I32_I4 => V_DOT8_I32_I4 | DOT8_U32_U4 => V_DOT8_U32_U4
  end.

Definition intDotSigned (d : IntDot) : bool :=
  match d with
  | DOT2_I32_I16 | DOT4_I32_I8 | DOT8_I32_I4 => true
  | DOT2_U32_U16 | DOT4_U32_U8 | DOT8_U32_U4 => false
  end.

Definition intDotINBITS (d : IntDot) : Z :=
  match d with
  | DOT2_I32_I16 => Inst_VOP3P__V_DOT2_I32_I16.INBITS
  | DOT2_U32_U16 => Inst_VOP3P__V_DOT2_U32_U16.INBITS
  | DOT4_I32_I8 => Inst_VOP3P__V_DOT4_I32_I8.INBITS
  | DOT4_U32_U8 => Inst_VOP3P__V_DOT4_U32_U8.INBITS
  | DOT8_I32_I4 => Inst_VOP3P__V_DOT8_I32_I4.INBITS
  | DOT8_U32_U4 => Inst_VOP3P__V_DOT8_U32_U4.INBITS
  end.

Definition intDotOpImpl (d : IntDot) : Z -> Z -> Z -> bool -> Z :=
  match d with
  | DOT2_I32_I16 => Inst_VOP3P__V_DOT2_I32_I16.opImpl
  | DOT2_U32_U16 => Inst_VOP3P__V_DOT2_U32_U16.opImpl
  | DOT4_I32_I8 => Inst_VOP3P__V_DOT4_I32_I8.opImpl
  | DOT4_U32_U8 => Inst_VOP3P__V_DOT4_U32_U8.opImpl
  | DOT8_I32_I4 => Inst_VOP3P__V_DOT8_I32_I4.opImpl
  | DOT8_U32_U4 => Inst_VOP3P__V_DOT8_U32_U4.opImpl
  end.

Definition intDotC (d : IntDot) (clamp : bool) (S0r S1r : Z) : list Z :=
  if intDotSigned d then signedC (intDotINBITS d) clamp S0r S1r
  else unsignedC (intDotINBITS d) clamp S0r S1r.

(** The element product "clamped to its element width", in exact
    arithmetic over the fields [a] and [b] of the two sources.  Signed
    families: the product of the fields read as signed INBITS-bit numbers,
    saturated to the signed INBITS-bit range when the flag is set, and
    reduced to its low INBITS bits read as signed when it is not.  Unsigned
    families: the product of the fields, capped at 2^INBITS - 1 when the
    flag is set. *)
Definition clampedProduct (d : IntDot) (clamp : bool) (a b : Z) : Z :=
  let N := intDotINBITS d in
  if intDotSigned d then
    let p := truncate_sext N a * truncate_sext N b in
    if clamp then saturate (- 2 ^ (N - 1)) (2 ^ (N - 1) - 1) p
    else truncate_sext N p
  else
    let p := a * b in
    if clamp then Z.min p (2 ^ N - 1) else p.

(** The exact (unbounded) sum of a list of integers. *)
Definition exactSum (l : list Z) : Z := foldr Z.add 0 l.

(** A register file all of whose lanes hold one value, and a wavefront
    over it; used to run instructions on concrete states. *)
Definition uniformWavefront (maskBits : Z) (lanes : nat -> Z) : Wavefront :=
  {| execMaskBits := maskBits;
     vrf := fun reg => replicate NumVecElemPerVecReg (lanes reg) |}.

(** The number whose base-2^w digits, least significant first, are the
    elements of [l]. *)
Definition fieldsValue (w : Z) (l : list Z) : Z :=
  foldr (fun e acc => e + 2 ^ w * acc) 0 l.

(** * Properties *)

(** ** Fixed-width arithmetic *)

Ltac pow_consts :=
  change (2 ^ 15) with 32768 in *;
  change (2 ^ 16) with 65536 in *;
  change (2 ^ 31) with 2147483648 in *;
  change (2 ^ 32) with 4294967296 in *;
  change (2 ^ 64) with 18446744073709551616 in *.

Ltac unfold_ints :=
  unfold to_int32, to_uint32, to_int16, to_uint16, to_uint64,
         is_int32, is_uint32, is_int16, is_uint16, wrapS, wrapU in *;
  change (32 - 1) with 31 in *; change (16 - 1) with 15 in *;
  pow_consts.

Ltac conjuncts := repeat match goal with |- _ /\ _ => split end.

Ltac solve_wrap := unfold_ints; Z.div_mod_to_equations; lia.

Lemma to_int32_id v : is_int32 v -> to_int32 v = v.
Proof. intros. solve_wrap. Qed.

Lemma to_uint32_id v : is_uint32 v -> to_uint32 v = v.
Proof. intros. solve_wrap. Qed.

Lemma to_int16_id v : is_int16 v -> to_int16 v = v.
Proof. intros. solve_wrap. Qed.

Lemma to_uint16_id v : is_uint16 v -> to_uint16 v = v.
Proof. intros. solve_wrap. Qed.

Lemma to_int32_range v : is_int32 (to_int32 v).
Proof. solve_wrap. Qed.

Lemma to_uint32_range v : is_uint32 (to_uint32 v).
Proof. solve_wrap. Qed.

Lemma to_uint32_to_int32 v : to_uint32 (to_int32 v) = to_uint32 v.
Proof. solve_wrap. Qed.

Lemma to_int32_to_uint32 v : to_int32 (to_uint32 v) = to_int32 v.
Proof. solve_wrap. Qed.

Lemma to_uint32_add_l a b : to_uint32 (to_uint32 a + b) = to_uint32 (a + b).
Proof.
  unfold to_uint32, wrapU. rewrite Zplus_mod_idemp_l. reflexivity.
Qed.

Lemma to_int32_add_l a b : to_int32 (to_int32 a + b) = to_int32 (a + b).
Proof. solve_wrap. Qed.

Lemma to_int32_add_r a b : to_int32 (a + to_int32 b) = to_int32 (a + b).
Proof. solve_wrap. Qed.

(** [wrapS] is the truncation to [N] bits read back as a signed number. *)
Lemma pow2_half N : 0 < N -> 2 ^ N = 2 * 2 ^ (N - 1) /\ 0 < 2 ^ (N - 1).
Proof.
  intros HN. split.
  - rewrite <- Z.pow_succ_r by lia. f_equal. lia.
  - apply Z.pow_pos_nonneg; lia.
Qed.

Lemma wrapS_truncate_sext N v : 0 < N -> wrapS N v = truncate_sext N v.
Proof.
  intros HN. unfold wrapS, truncate_sext.
  destruct (pow2_half N HN) as [Hp Hpos].
  rewrite Hp. set (h := 2 ^ (N - 1)) in *.
  pose proof (Z.div_mod v (2 * h) ltac:(lia)) as E.
  pose proof (Z.mod_pos_bound v (2 * h) ltac:(lia)) as B.
  set (q := v / (2 * h)) in *. set (t := v mod (2 * h)) in *.
  destruct (Z.ltb_spec t h).
  - rewrite <- (Z.mod_unique (v + h) (2 * h) q (t + h)) by lia. lia.
  - rewrite <- (Z.mod_unique (v + h) (2 * h) (q + 1) (t - h)) by lia. lia.
Qed.

Lemma truncate_sext_range N v : 0 < N -> in_signed_range N (truncate_sext N v).
Proof.
  intros HN. unfold truncate_sext, in_signed_range.
  destruct (pow2_half N HN) as [Hp Hpos].
  rewrite Hp. set (h := 2 ^ (N - 1)) in *.
  pose proof (Z.mod_pos_bound v (2 * h) ltac:(lia)).
  destruct (Z.ltb_spec (v mod (2 * h)) h); lia.
Qed.

Lemma truncate_sext_id N v :
  0 < N -> in_signed_range N v -> truncate_sext N v = v.
Proof.
  intros HN. unfold truncate_sext, in_signed_range.
  destruct (pow2_half N HN) as [Hp Hpos].
  rewrite Hp. set (h := 2 ^ (N - 1)) in *. intros Hv.
  assert (Hm : v mod (2 * h) = if v <? 0 then v + 2 * h else v).
  { destruct (Z.ltb_spec v 0).
    - symmetry. apply (Z.mod_unique v (2 * h) (-1)); lia.
    - symmetry. apply (Z.mod_unique v (2 * h) 0); lia. }
  rewrite Hm.
  destruct (Z.ltb_spec v 0);
    match goal with |- context [?a <? ?b] => destruct (Z.ltb_spec a b) end; lia.
Qed.

(** ** Bit fields *)

Lemma mask_ones N : 0 <= N <= 64 -> mask N = Z.ones N.
Proof.
  intros HN. unfold mask. destruct (Z.leb_spec 64 N).
  - replace N with 64 by lia. reflexivity.
  - rewrite Z.ones_equiv, Z.shiftl_1_l. lia.
Qed.

Lemma land_mask v N : 0 <= N <= 64 -> Z.land v (mask N) = v mod 2 ^ N.
Proof. intros HN. rewrite mask_ones, Z.land_ones by lia. reflexivity. Qed.

Lemma bits_mod val first last :
  0 <= last <= first -> first - last < 64 ->
  bits val first last = (val / 2 ^ last) mod 2 ^ (first - last + 1).
Proof.
  intros H1 H2. unfold bits.
  rewrite land_mask, Z.shiftr_div_pow2 by lia. reflexivity.
Qed.

(** The word [~mask(N)] of [sext]. *)
Lemma not_mask N :
  0 <= N <= 64 -> Z.land (Z.lnot (mask N)) (Z.ones 64) = 2 ^ 64 - 2 ^ N.
Proof.
  intros HN. rewrite mask_ones, Z.land_ones by lia.
  rewrite Z.ones_equiv, Z.lnot_eq_pred_opp.
  assert (0 < 2 ^ N) by (apply Z.pow_pos_nonneg; lia).
  assert (2 ^ N <= 2 ^ 64) by (apply Z.pow_le_mono_r; lia).
  pow_consts.
  destruct (Z.eq_dec (2 ^ N) 18446744073709551616) as [E | E].
  - rewrite E. reflexivity.
  - symmetry. apply (Z.mod_unique _ _ (-1)); lia.
Qed.

(** [sext<N>] on a field that fits [N] bits. *)
Lemma sext_field N t :
  0 < N <= 64 -> 0 <= t < 2 ^ N ->
  sext N t = if t <? 2 ^ (N - 1) then t else t + 2 ^ 64 - 2 ^ N.
Proof.
  intros HN Ht. unfold sext.
  destruct (pow2_half N ltac:(lia)) as [Hp Hpos].
  rewrite Z.testbit_eqb by lia.
  assert (Hq : t / 2 ^ (N - 1) = if t <? 2 ^ (N - 1) then 0 else 1).
  { destruct (Z.ltb_spec t (2 ^ (N - 1))).
    - apply Z.div_small; lia.
    - symmetry. apply (Z.div_unique t _ 1 (t - 2 ^ (N - 1))); lia. }
  rewrite Hq. destruct (Z.ltb_spec t (2 ^ (N - 1))); [reflexivity |].
  change (1 mod 2 =? 1) with true. cbv iota.
  rewrite <- Z.add_nocarry_lor.
  - rewrite not_mask by lia. lia.
  - rewrite <- (Z.mod_small t (2 ^ N)) by lia.
    rewrite <- land_mask by lia.
    rewrite <- Z.land_assoc, (Z.land_assoc (mask N)), Z.land_lnot_diag.
    rewrite Z.land_0_l, Z.land_0_r. reflexivity.
Qed.

(** The second statement of the signed loop body is the truncation to
    [INBITS] bits, read back as a signed number, of what [dotClampI]
    returned. *)
Lemma elementI_truncate N clamp c :
  0 < N < 32 ->
  elementI N clamp c = truncate_sext N (dotClampI N c clamp).
Proof.
  intros HN. unfold elementI. set (d := dotClampI N c clamp).
  rewrite land_mask by lia. unfold to_uint64, wrapU.
  rewrite Z.mod_mod_divide
    by (exists (2 ^ (64 - N)); rewrite <- Z.pow_add_r by lia; f_equal; lia).
  pose proof (Z.mod_pos_bound d (2 ^ N) ltac:(apply Z.pow_pos_nonneg; lia)) as B.
  rewrite sext_field by lia. unfold truncate_sext.
  destruct (pow2_half N ltac:(lia)) as [Hp Hpos].
  assert (2 ^ (N - 1) <= 2 ^ 30) by (apply Z.pow_le_mono_r; lia).
  set (t := d mod 2 ^ N) in *. change (2 ^ 30) with 1073741824 in *.
  destruct (Z.ltb_spec t (2 ^ (N - 1))).
  - apply to_int32_id. unfold is_int32. pow_consts. lia.
  - unfold to_int32, wrapS. change (32 - 1) with 31. pow_consts.
    rewrite <- (Z.mod_unique (t + 18446744073709551616 - 2 ^ N + 2147483648)
                  4294967296 4294967296 (t - 2 ^ N + 2147483648)) by lia.
    lia.
Qed.

Lemma elementI_range N clamp c :
  0 < N < 32 -> in_signed_range N (elementI N clamp c).
Proof.
  intros HN. rewrite elementI_truncate by lia.
  apply truncate_sext_range; lia.
Qed.

(** ** Saturation helpers *)

Lemma dotClampI_wrap N v : is_int32 v -> dotClampI N v false = v.
Proof. intros Hv. unfold dotClampI. cbn [negb]. apply to_int32_id, Hv. Qed.

Lemma dotClampI_bounds N :
  0 < N < 32 ->
  to_int32 (- Z.shiftl 1 (N - 1)) = - 2 ^ (N - 1) /\
  to_int32 (Z.shiftl 1 (N - 1) - 1) = 2 ^ (N - 1) - 1.
Proof.
  intros HN. rewrite Z.shiftl_1_l.
  assert (0 < 2 ^ (N - 1)) by (apply Z.pow_pos_nonneg; lia).
  assert (2 ^ (N - 1) <= 2 ^ 30) by (apply Z.pow_le_mono_r; lia).
  change (2 ^ 30) with 1073741824 in *.
  split; apply to_int32_id; unfold is_int32; pow_consts; lia.
Qed.

Lemma dotClampI_saturate_range N v :
  0 < N < 32 -> in_signed_range N (dotClampI N v true).
Proof.
  intros HN. unfold dotClampI. cbn [negb].
  destruct (dotClampI_bounds N HN) as [-> ->].
  assert (0 < 2 ^ (N - 1)) by (apply Z.pow_pos_nonneg; lia).
  unfold std_clamp, in_signed_range.
  repeat match goal with
         | |- context [?a <? ?b] => destruct (Z.ltb_spec a b)
         end; lia.
Qed.

Lemma dotClampI_saturate_id N v :
  0 < N < 32 -> in_signed_range N v -> dotClampI N v true = v.
Proof.
  intros HN Hv. unfold dotClampI. cbn [negb].
  destruct (dotClampI_bounds N HN) as [-> ->].
  unfold std_clamp, in_signed_range in *.
  repeat match goal with
         | |- context [?a <? ?b] => destruct (Z.ltb_spec a b)
         end; lia.
Qed.

Lemma clampI16_wrap v : clampI16 v false = truncate_sext 16 v.
Proof.
  unfold clampI16. cbn [negb]. apply (wrapS_truncate_sext 16). lia.
Qed.

Lemma clampI16_saturate v :
  in_signed_range 16 (clampI16 v true) /\
  (in_signed_range 16 v -> clampI16 v true = v).
Proof.
  unfold clampI16, in_signed_range. cbn [negb].
  change (to_int32 (- 2 ^ 15)) with (-32768).
  change (to_int32 (2 ^ 15 - 1)) with 32767.
  change (2 ^ (16 - 1)) with 32768.
  unfold std_clamp.
  repeat match goal with
         | |- context [?a <? ?b] => destruct (Z.ltb_spec a b)
         end;
    (split; [| intros ?]); solve [solve_wrap].
Qed.

(** C2, as the claim states it, fails for [dotClampI]: without saturation
    [dotClampI<8>] returns 200 for 200, whereas the truncation of 200 to
    8 bits, sign-extended, is -56. *)
Lemma dotClampI_wrap_counterexample :
  is_int32 200 /\
  dotClampI 8 200 false = 200 /\
  truncate_sext 8 200 = -56 /\
  dotClampI 8 200 false <> truncate_sext 8 200.
Proof.
  split; [unfold is_int32; lia |].
  split; [reflexivity |]. split; [reflexivity |].
  vm_compute. discriminate.
Qed.

(** C2 (amended).  For every N in {4, 8, 16} and every 32-bit signed v:
    without saturation [dotClampI<N>] returns v unchanged, and it is the
    dot-product loop body, [sext<N>(dotClampI<N>(v, false) & mask(N))],
    that yields the truncation of v to N bits sign-extended back, as does
    [clampI16] for width 16; with saturation [dotClampI<N>] and [clampI16]
    return a value of the signed N-bit (16-bit) range, equal to v whenever
    v is already in that range. *)
Theorem signed_clamp_laws (N v : Z) :
  N = 4 \/ N = 8 \/ N = 16 ->
  is_int32 v ->
  dotClampI N v false = v /\
  elementI N false v = truncate_sext N v /\
  clampI16 v false = truncate_sext 16 v /\
  in_signed_range N (dotClampI N v true) /\
  (in_signed_range N v -> dotClampI N v true = v) /\
  in_signed_range 16 (clampI16 v true) /\
  (in_signed_range 16 v -> clampI16 v true = v).
Proof.
  intros HN Hv.
  assert (HN' : 0 < N < 32) by lia.
  split; [apply dotClampI_wrap, Hv |].
  split; [rewrite elementI_truncate, dotClampI_wrap by assumption; reflexivity |].
  split; [apply clampI16_wrap |].
  split; [apply dotClampI_saturate_range, HN' |].
  split; [apply dotClampI_saturate_id, HN' |].
  apply clampI16_saturate.
Qed.

Lemma signed_clamp_laws_witness :
  (8 = 4 \/ 8 = 8 \/ 8 = 16) /\ is_int32 200 /\
  dotClampI 8 200 false = 200 /\
  elementI 8 false 200 = truncate_sext 8 200 /\
  clampI16 200 false = truncate_sext 16 200 /\
  in_signed_range 8 (dotClampI 8 200 true) /\
  (in_signed_range 8 200 -> dotClampI 8 200 true = 200) /\
  in_signed_range 16 (clampI16 200 true) /\
  (in_signed_range 16 200 -> clampI16 200 true = 200).
Proof.
  assert (H1 : 8 = 4 \/ 8 = 8 \/ 8 = 16) by (right; left; reflexivity).
  assert (H2 : is_int32 200) by (unfold is_int32; lia).
  split; [exact H1 |]. split; [exact H2 |].
  exact (signed_clamp_laws 8 200 H1 H2).
Defined.

(** ** Packed 16-bit instructions *)

(** C4.  PK_ADD_I16 on the elements 32767 and 1: with saturation the
    result is 32767, the int16 maximum; without saturation it wraps to
    -32768. *)
Theorem pk_add_i16_at_int16_max :
  Inst_VOP3P__V_PK_ADD_I16.opImpl 32767 1 true = 32767 /\
  Inst_VOP3P__V_PK_ADD_I16.opImpl 32767 1 false = -32768.
Proof. split; reflexivity. Qed.

(** C5.  For all uint16 elements S0 and S1 and either value of the
    saturate flag, PK_MUL_LO_U16 returns the low 16 bits of the 32-bit
    product of S0 and S1; the flag does not change the result, and on
    (0xFFFF, 0x0002) the result is 0xFFFE. *)
Theorem pk_mul_lo_u16_low_half (S0 S1 : Z) (clamp : bool) :
  is_uint16 S0 -> is_uint16 S1 ->
  Inst_VOP3P__V_PK_MUL_LO_U16.opImpl S0 S1 clamp
    = Z.land (to_uint32 (S0 * S1)) 0xFFFF /\
  Inst_VOP3P__V_PK_MUL_LO_U16.opImpl S0 S1 clamp = (S0 * S1) mod 2 ^ 16 /\
  Inst_VOP3P__V_PK_MUL_LO_U16.opImpl S0 S1 true
    = Inst_VOP3P__V_PK_MUL_LO_U16.opImpl S0 S1 false /\
  Inst_VOP3P__V_PK_MUL_LO_U16.opImpl 0xFFFF 0x0002 clamp = 0xFFFE.
Proof.
  intros _ _. unfold Inst_VOP3P__V_PK_MUL_LO_U16.opImpl.
  rewrite to_uint32_to_int32.
  change 0xFFFF with (Z.ones 16). rewrite !Z.land_ones by lia.
  assert (E : to_uint16 (to_uint32 (S0 * S1) mod 2 ^ 16)
              = to_uint32 (S0 * S1) mod 2 ^ 16).
  { apply to_uint16_id. unfold is_uint16. apply Z.mod_pos_bound. lia. }
  rewrite E. repeat split.
  unfold to_uint32, wrapU. apply Z.mod_mod_divide.
  exists (2 ^ 16). reflexivity.
Qed.

Lemma pk_mul_lo_u16_low_half_witness :
  is_uint16 0xFFFF /\ is_uint16 0xFFFF /\
  Inst_VOP3P__V_PK_MUL_LO_U16.opImpl 0xFFFF 0xFFFF true
    = Z.land (to_uint32 (0xFFFF * 0xFFFF)) 0xFFFF /\
  Inst_VOP3P__V_PK_MUL_LO_U16.opImpl 0xFFFF 0xFFFF true
    = (0xFFFF * 0xFFFF) mod 2 ^ 16 /\
  Inst_VOP3P__V_PK_MUL_LO_U16.opImpl 0xFFFF 0xFFFF true
    = Inst_VOP3P__V_PK_MUL_LO_U16.opImpl 0xFFFF 0xFFFF false /\
  Inst_VOP3P__V_PK_MUL_LO_U16.opImpl 0xFFFF 0x0002 true = 0xFFFE.
Proof.
  assert (H : is_uint16 0xFFFF) by (unfold is_uint16; lia).
  split; [exact H |]. split; [exact H |].
  exact (pk_mul_lo_u16_low_half 0xFFFF 0xFFFF true H H).
Defined.

Lemma div_pow2_int16 S1 sh :
  0 <= sh -> is_int16 S1 -> is_int16 (S1 / 2 ^ sh).
Proof.
  intros Hsh. unfold is_int16. pow_consts. intros HS.
  assert (Hp : 0 < 2 ^ sh) by (apply Z.pow_pos_nonneg; lia).
  split.
  - apply Z.div_le_lower_bound; [exact Hp | nia].
  - apply Z.div_lt_upper_bound; [exact Hp | nia].
Qed.

(** C7.  For all int16 elements S0 and S1, PK_ASHRREV_B16 shifts by
    [bits(S0, 3, 0)], a value in [0, 15] (the low four bits of S0); its
    result is S1, sign-extended to 32 bits, shifted right arithmetically by
    that amount and truncated back to 16 bits, which is the floor of
    S1 / 2^shift; the saturate flag has no effect. *)
Theorem pk_ashrrev_b16_shift (S0 S1 : Z) (clamp : bool) :
  is_int16 S0 -> is_int16 S1 ->
  0 <= bits S0 3 0 <= 15 /\
  bits S0 3 0 = S0 mod 16 /\
  Inst_VOP3P__V_PK_ASHRREV_B16.opImpl S0 S1 clamp
    = truncate_sext 16 (Z.shiftr (to_int32 S1) (bits S0 3 0)) /\
  Inst_VOP3P__V_PK_ASHRREV_B16.opImpl S0 S1 clamp = S1 / 2 ^ (bits S0 3 0) /\
  Inst_VOP3P__V_PK_ASHRREV_B16.opImpl S0 S1 true
    = Inst_VOP3P__V_PK_ASHRREV_B16.opImpl S0 S1 false.
Proof.
  intros H0 H1.
  assert (Hb : bits S0 3 0 = S0 mod 16).
  { rewrite bits_mod by lia. change (2 ^ 0) with 1.
    change (2 ^ (3 - 0 + 1)) with 16. rewrite Z.div_1_r. reflexivity. }
  pose proof (Z.mod_pos_bound S0 16 ltac:(lia)) as Hr.
  unfold Inst_VOP3P__V_PK_ASHRREV_B16.opImpl. rewrite Hb.
  set (sh := S0 mod 16) in *.
  assert (Hs : to_uint32 sh = sh) by (apply to_uint32_id; unfold is_uint32; lia).
  assert (He : to_int32 S1 = S1).
  { apply to_int32_id. unfold is_int16, is_int32 in *. pow_consts. lia. }
  rewrite Hs, He, Z.shiftr_div_pow2 by lia.
  pose proof (div_pow2_int16 S1 sh ltac:(lia) H1) as Hq.
  split; [lia |]. split; [reflexivity |].
  split; [apply (wrapS_truncate_sext 16); lia |].
  split; [apply to_int16_id, Hq | reflexivity].
Qed.

Lemma pk_ashrrev_b16_shift_witness :
  is_int16 (-13) /\ is_int16 (-32768) /\
  0 <= bits (-13) 3 0 <= 15 /\
  bits (-13) 3 0 = (-13) mod 16 /\
  Inst_VOP3P__V_PK_ASHRREV_B16.opImpl (-13) (-32768) true
    = truncate_sext 16 (Z.shiftr (to_int32 (-32768)) (bits (-13) 3 0)) /\
  Inst_VOP3P__V_PK_ASHRREV_B16.opImpl (-13) (-32768) true
    = (-32768) / 2 ^ (bits (-13) 3 0) /\
  Inst_VOP3P__V_PK_ASHRREV_B16.opImpl (-13) (-32768) true
    = Inst_VOP3P__V_PK_ASHRREV_B16.opImpl (-13) (-32768) false.
Proof.
  assert (H0 : is_int16 (-13)) by (unfold is_int16; lia).
  assert (H1 : is_int16 (-32768)) by (unfold is_int16; lia).
  split; [exact H0 |]. split; [exact H1 |].
  exact (pk_ashrrev_b16_shift (-13) (-32768) true H0 H1).
Defined.

(** ** Lane loops and the destination write *)

Section LaneLoop.
Variable wf : Wavefront.
Variable f : nat -> Z.

Lemma lane_step_length d lane : length (laneStep wf f d lane) = length d.
Proof. unfold laneStep, writeStep. destruct (execMask wf lane); [apply length_insert | reflexivity]. Qed.

Lemma lane_fold_length ls : forall d, length (foldl (laneStep wf f) d ls) = length d.
Proof.
  induction ls as [| l ls IH]; intros d; cbn [foldl]; [reflexivity |].
  rewrite IH. apply lane_step_length.
Qed.

Lemma lane_fold_inactive ls lane :
  execMask wf lane = false ->
  forall d, foldl (laneStep wf f) d ls !!! lane = d !!! lane.
Proof.
  intros Hm. induction ls as [| l ls IH]; intros d; cbn [foldl]; [reflexivity |].
  rewrite IH. unfold laneStep, writeStep. destruct (execMask wf l) eqn:El; [| reflexivity].
  apply list_lookup_total_insert_ne. intros ->. congruence.
Qed.

Lemma lane_fold_active ls lane :
  execMask wf lane = true -> elem_of lane ls ->
  forall d, (lane < length d)%nat -> foldl (laneStep wf f) d ls !!! lane = f lane.
Proof.
  intros Hm. induction ls as [| l ls IH] using rev_ind; intros Hin d Hlen.
  - inversion Hin.
  - rewrite foldl_snoc. apply elem_of_app in Hin.
    destruct (decide (l = lane)) as [-> | Hne].
    + unfold laneStep, writeStep. rewrite Hm.
      apply list_lookup_total_insert_eq. rewrite lane_fold_length. exact Hlen.
    + destruct Hin as [Hin | Hin%list_elem_of_singleton]; [| congruence].
      unfold laneStep, writeStep. destruct (execMask wf l).
      * rewrite list_lookup_total_insert_ne by exact Hne. apply IH; assumption.
      * apply IH; assumption.
Qed.

(** What the lane loop leaves in the destination buffer. *)
Lemma forActiveLanes_active lane :
  (lane < NumVecElemPerVecReg)%nat -> execMask wf lane = true ->
  forActiveLanes wf f newVecOperand !!! lane = f lane.
Proof.
  intros Hl Hm. unfold forActiveLanes. apply lane_fold_active.
  - exact Hm.
  - apply elem_of_seq. lia.
  - unfold newVecOperand. rewrite length_replicate. exact Hl.
Qed.
End LaneLoop.

Section Write.
Variable wf : Wavefront.
Variable reg : nat.
Variable buf : list Z.

Lemma readLane_writeLane_ne w l v r lane :
  l <> lane -> readLane (writeLane w reg l v) r lane = readLane w r lane.
Proof.
  intros Hne. unfold readLane, writeLane. cbn [vrf].
  destruct (decide (reg = r)) as [<- | Hr].
  - rewrite fn_lookup_insert. apply list_lookup_total_insert_ne, Hne.
  - rewrite fn_lookup_insert_ne by exact Hr. reflexivity.
Qed.

Lemma readLane_writeLane_eq w v lane :
  (lane < length (vrf w reg))%nat ->
  readLane (writeLane w reg lane v) reg lane = v.
Proof.
  intros Hl. unfold readLane, writeLane. cbn [vrf].
  rewrite fn_lookup_insert. apply list_lookup_total_insert_eq, Hl.
Qed.

Lemma write_step_length w l : length (vrf (writeStep wf reg buf w l) reg) = length (vrf w reg).
Proof.
  unfold laneStep, writeStep. destruct (execMask wf l); [| reflexivity].
  unfold writeLane. cbn [vrf]. rewrite fn_lookup_insert. apply length_insert.
Qed.

Lemma write_fold_length ls :
  forall w, length (vrf (foldl (writeStep wf reg buf) w ls) reg) = length (vrf w reg).
Proof.
  induction ls as [| l ls IH]; intros w; cbn [foldl]; [reflexivity |].
  rewrite IH. apply write_step_length.
Qed.

Lemma write_fold_inactive ls r lane :
  execMask wf lane = false ->
  forall w, readLane (foldl (writeStep wf reg buf) w ls) r lane = readLane w r lane.
Proof.
  intros Hm. induction ls as [| l ls IH]; intros w; cbn [foldl]; [reflexivity |].
  rewrite IH. unfold laneStep, writeStep. destruct (execMask wf l) eqn:El; [| reflexivity].
  apply readLane_writeLane_ne. intros ->. congruence.
Qed.

Lemma write_fold_active ls lane :
  execMask wf lane = true -> elem_of lane ls ->
  forall w, (lane < length (vrf w reg))%nat ->
    readLane (foldl (writeStep wf reg buf) w ls) reg lane = buf !!! lane.
Proof.
  intros Hm. induction ls as [| l ls IH] using rev_ind; intros Hin w Hlen.
  - inversion Hin.
  - rewrite foldl_snoc. apply elem_of_app in Hin.
    destruct (decide (l = lane)) as [-> | Hne].
    + unfold laneStep, writeStep. rewrite Hm.
      apply readLane_writeLane_eq. rewrite write_fold_length. exact Hlen.
    + destruct Hin as [Hin | Hin%list_elem_of_singleton]; [| congruence].
      unfold laneStep, writeStep. destruct (execMask wf l).
      * rewrite readLane_writeLane_ne by exact Hne. apply IH; assumption.
      * apply IH; assumption.
Qed.

(** A lane outside the execution mask keeps its value in every register. *)
Lemma write_inactive r lane :
  execMask wf lane = false ->
  readLane (write wf reg buf) r lane = readLane wf r lane.
Proof. intros Hm. unfold write. apply write_fold_inactive, Hm. Qed.

(** An active lane of the destination register receives the buffer's lane. *)
Lemma write_active lane :
  (lane < NumVecElemPerVecReg)%nat ->
  length (vrf wf reg) = NumVecElemPerVecReg ->
  execMask wf lane = true ->
  readLane (write wf reg buf) reg lane = buf !!! lane.
Proof.
  intros Hl Hlen Hm. unfold write. apply write_fold_active.
  - exact Hm.
  - apply elem_of_seq. lia.
  - rewrite Hlen. exact Hl.
Qed.
End Write.

(** ** Execution mask *)

(** C3.  For every instruction of the file and every lane whose
    execution-mask bit is false, the lane of the destination register (and
    of every other register) holds the same value before and after
    [execute]; the lane loop does not assign that lane of the destination
    operand either. *)
Theorem inactive_lane_unchanged `{FpLib} (op : Opcode) (inst : InFmt_VOP3P)
    (wf : Wavefront) (lane : nat) :
  execMask wf lane = false ->
  readLane (execute op inst wf) (VDST inst) lane = readLane wf (VDST inst) lane /\
  (forall reg, readLane (execute op inst wf) reg lane = readLane wf reg lane) /\
  (forall f vdst, forActiveLanes wf f vdst !!! lane = vdst !!! lane).
Proof.
  intros Hm.
  assert (Hloop : forall f vdst, forActiveLanes wf f vdst !!! lane = vdst !!! lane).
  { intros f vdst. unfold forActiveLanes. apply lane_fold_inactive, Hm. }
  assert (Hall : forall reg,
             readLane (execute op inst wf) reg lane = readLane wf reg lane).
  { intros reg. destruct op; cbn [execute];
      first [ unfold Inst_VOP3P__V_ACCVGPR_READ.execute
            | unfold Inst_VOP3P__V_ACCVGPR_WRITE.execute
            | apply write_inactive, Hm ];
      apply write_inactive, Hm. }
  split; [apply Hall |]. split; [exact Hall | exact Hloop].
Qed.

Lemma inactive_lane_unchanged_witness :
  execMask (uniformWavefront 5 (fun reg => Z.of_nat reg + 0x7FFF0000)) 1 = false /\
  readLane (execute (H := nullFpLib) V_PK_ADD_I16 (mkInFmt 0 true 1 2 3)
              (uniformWavefront 5 (fun reg => Z.of_nat reg + 0x7FFF0000)))
           0 1
    = readLane (uniformWavefront 5 (fun reg => Z.of_nat reg + 0x7FFF0000)) 0 1.
Proof.
  assert (Hm : execMask (uniformWavefront 5
                           (fun reg => Z.of_nat reg + 0x7FFF0000)) 1 = false)
    by reflexivity.
  split; [exact Hm |].
  exact (proj1 (inactive_lane_unchanged (H := nullFpLib) V_PK_ADD_I16
                  (mkInFmt 0 true 1 2 3) _ 1 Hm)).
Defined.

(** ** Accumulator-register moves *)

Lemma accvgpr_move_lanes (inst : InFmt_VOP3P) (wf : Wavefront) (lane : nat) :
  (lane < NumVecElemPerVecReg)%nat ->
  length (vrf wf (VDST inst)) = NumVecElemPerVecReg ->
  (execMask wf lane = true ->
   readLane (Inst_VOP3P__V_ACCVGPR_READ.execute inst wf) (VDST inst) lane
     = readLane wf (SRC0 inst) lane) /\
  (execMask wf lane = false ->
   readLane (Inst_VOP3P__V_ACCVGPR_READ.execute inst wf) (VDST inst) lane
     = readLane wf (VDST inst) lane).
Proof.
  intros Hl Hlen. unfold Inst_VOP3P__V_ACCVGPR_READ.execute. split; intros Hm.
  - rewrite write_active by assumption.
    rewrite forActiveLanes_active by assumption. reflexivity.
  - apply write_inactive, Hm.
Qed.

(** C10.  ACCVGPR_READ and ACCVGPR_WRITE are the same function of the
    instruction fields and the wavefront state; under either, an active
    lane of the destination register receives the 32-bit value of the same
    lane of the source register, unchanged, and an inactive lane keeps the
    value it had. *)
Theorem accvgpr_read_write_same (inst : InFmt_VOP3P) (wf : Wavefront)
    (lane : nat) :
  (lane < NumVecElemPerVecReg)%nat ->
  length (vrf wf (VDST inst)) = NumVecElemPerVecReg ->
  Inst_VOP3P__V_ACCVGPR_READ.execute inst wf
    = Inst_VOP3P__V_ACCVGPR_WRITE.execute inst wf /\
  (execMask wf lane = true ->
   readLane (Inst_VOP3P__V_ACCVGPR_READ.execute inst wf) (VDST inst) lane
     = readLane wf (SRC0 inst) lane /\
   readLane (Inst_VOP3P__V_ACCVGPR_WRITE.execute inst wf) (VDST inst) lane
     = readLane wf (SRC0 inst) lane) /\
  (execMask wf lane = false ->
   readLane (Inst_VOP3P__V_ACCVGPR_READ.execute inst wf) (VDST inst) lane
     = readLane wf (VDST inst) lane /\
   readLane (Inst_VOP3P__V_ACCVGPR_WRITE.execute inst wf) (VDST inst) lane
     = readLane wf (VDST inst) lane).
Proof.
  intros Hl Hlen.
  assert (E : Inst_VOP3P__V_ACCVGPR_READ.execute inst wf
              = Inst_VOP3P__V_ACCVGPR_WRITE.execute inst wf).
  { unfold Inst_VOP3P__V_ACCVGPR_READ.execute,
           Inst_VOP3P__V_ACCVGPR_WRITE.execute. reflexivity. }
  destruct (accvgpr_move_lanes inst wf lane Hl Hlen) as [Ha Hi].
  split; [exact E |]. rewrite <- E.
  split; intros Hm.
  - split; exact (Ha Hm).
  - split; exact (Hi Hm).
Qed.

Lemma accvgpr_read_write_same_witness :
  (2 < NumVecElemPerVecReg)%nat /\
  execMask (uniformWavefront 5 (fun reg => Z.of_nat reg + 10)) 2 = true /\
  readLane (Inst_VOP3P__V_ACCVGPR_READ.execute (mkInFmt 0 false 1 0 0)
              (uniformWavefront 5 (fun reg => Z.of_nat reg + 10))) 0 2
    = readLane (uniformWavefront 5 (fun reg => Z.of_nat reg + 10)) 1 2 /\
  readLane (Inst_VOP3P__V_ACCVGPR_WRITE.execute (mkInFmt 0 false 1 0 0)
              (uniformWavefront 5 (fun reg => Z.of_nat reg + 10))) 0 2
    = readLane (uniformWavefront 5 (fun reg => Z.of_nat reg + 10)) 1 2.
Proof.
  assert (Hl : (2 < NumVecElemPerVecReg)%nat) by (unfold NumVecElemPerVecReg; lia).
  assert (Hm : execMask (uniformWavefront 5 (fun reg => Z.of_nat reg + 10)) 2
               = true) by reflexivity.
  split; [exact Hl |]. split; [exact Hm |].
  exact (proj1 (proj2 (accvgpr_read_write_same (mkInFmt 0 false 1 0 0)
                         (uniformWavefront 5 (fun reg => Z.of_nat reg + 10))
                         2 Hl eq_refl)) Hm).
Defined.

(** ** Dot products *)

Lemma dotHelper_active (fOpImpl : Z -> Z -> Z -> bool -> Z)
    (inst : InFmt_VOP3P) (wf : Wavefront) (lane : nat) :
  (lane < NumVecElemPerVecReg)%nat ->
  length (vrf wf (VDST inst)) = NumVecElemPerVecReg ->
  execMask wf lane = true ->
  readLane (dotHelper fOpImpl inst wf) (VDST inst) lane
    = fOpImpl (readLane wf (SRC0 inst) lane) (readLane wf (SRC1 inst) lane)
        (readLane wf (SRC2 inst) lane) (CLMP inst).
Proof.
  intros Hl Hlen Hm. unfold dotHelper.
  rewrite write_active by assumption.
  rewrite forActiveLanes_active by assumption. reflexivity.
Qed.

(** The running sums only ever differ from the exact sum by a multiple of
    2^32. *)
Lemma sumU_exact l : forall a k,
  to_uint32 (foldl (fun Csum c => to_uint32 (Csum + c)) a l + k)
    = to_uint32 (a + exactSum l + k).
Proof.
  induction l as [| c l IH]; intros a k; cbn [foldl exactSum foldr].
  - f_equal. lia.
  - rewrite IH. fold (exactSum l).
    replace (to_uint32 (a + c) + exactSum l + k)
      with (to_uint32 (a + c) + (exactSum l + k)) by lia.
    rewrite to_uint32_add_l. f_equal. lia.
Qed.

Lemma to_uint32_int32_add_l a b : to_uint32 (to_int32 a + b) = to_uint32 (a + b).
Proof. solve_wrap. Qed.

Lemma sumI_exact l : forall a k,
  to_uint32 (foldl (fun Csum c => to_int32 (Csum + c)) a l + k)
    = to_uint32 (a + exactSum l + k).
Proof.
  induction l as [| c l IH]; intros a k; cbn [foldl exactSum foldr].
  - f_equal. lia.
  - rewrite IH. fold (exactSum l).
    replace (to_int32 (a + c) + exactSum l + k)
      with (to_int32 (a + c) + (exactSum l + k)) by lia.
    rewrite to_uint32_int32_add_l. f_equal. lia.
Qed.

Lemma unsignedDot_exact N S0r S1r S2 clamp :
  unsignedDot N S0r S1r S2 clamp
    = to_uint32 (exactSum (unsignedC N clamp S0r S1r) + S2).
Proof. unfold unsignedDot, sumU. rewrite sumU_exact. f_equal. Qed.

Lemma signedDot_exact N S0r S1r S2 clamp :
  signedDot N S0r S1r S2 clamp
    = to_uint32 (exactSum (signedC N clamp S0r S1r) + S2).
Proof.
  unfold signedDot, sumI. rewrite to_uint32_to_int32, sumI_exact.
  cbn [Z.add]. rewrite Z.add_comm, to_uint32_int32_add_l. f_equal. lia.
Qed.

Lemma intDot_exact d S0r S1r S2 clamp :
  intDotOpImpl d S0r S1r S2 clamp
    = to_uint32 (exactSum (intDotC d clamp S0r S1r) + S2).
Proof.
  destruct d; first [apply signedDot_exact | apply unsignedDot_exact].
Qed.

Lemma Forall_zip_with_all {A B C} (f : A -> B -> C) (P : C -> Prop) :
  (forall a b, P (f a b)) -> forall l k, Forall P (zip_with f l k).
Proof.
  intros Hf l. induction l as [| a l IH]; intros [| b k]; cbn [zip_with];
    constructor; auto.
Qed.

Lemma signedC_range N clamp S0r S1r :
  0 < N < 32 -> Forall (in_signed_range N) (signedC N clamp S0r S1r).
Proof.
  intros HN. unfold signedC. apply Forall_zip_with_all.
  intros a b. apply elementI_range, HN.
Qed.

Lemma signedC_truncate N clamp S0r S1r :
  0 < N < 32 ->
  signedC N clamp S0r S1r
    = zip_with (fun a b => truncate_sext N (dotClampI N (productI N a b) clamp))
        (unpack N S0r) (unpack N S1r).
Proof.
  intros HN. unfold signedC. apply zip_with_ext; [| reflexivity | reflexivity].
  intros a b. apply elementI_truncate, HN.
Qed.

Lemma unsignedC_raw N S0r S1r :
  unsignedC N false S0r S1r = zip_with productU (unpack N S0r) (unpack N S1r).
Proof.
  unfold unsignedC. apply zip_with_ext; [| reflexivity | reflexivity].
  intros a b. unfold elementU, dotClampU, productU. cbn [negb].
  rewrite to_uint32_to_int32. apply to_uint32_id, to_uint32_range.
Qed.

(** C9.  In each signed dot-product instruction (DOT2_I32_I16,
    DOT4_I32_I8, DOT8_I32_I4), for all inputs and either value of the
    saturate flag, every value that the loop adds to the running sum lies
    in the signed INBITS-bit range, being the truncation to INBITS bits,
    sign-extended, of what [dotClampI] returned.  The unsigned families do
    not truncate when saturation is off: the value added is the raw 32-bit
    product, which can exceed the element range (255 * 255 = 65025 for
    DOT4_U32_U8). *)
Theorem signed_dot_terms_in_range (d : IntDot) (S0r S1r S2 : Z) (clamp : bool) :
  intDotSigned d = true ->
  intDotOpImpl d S0r S1r S2 clamp
    = to_uint32 (to_int32 (sumI (intDotC d clamp S0r S1r) + to_int32 S2)) /\
  Forall (in_signed_range (intDotINBITS d)) (intDotC d clamp S0r S1r) /\
  intDotC d clamp S0r S1r
    = zip_with (fun a b =>
                  truncate_sext (intDotINBITS d)
                    (dotClampI (intDotINBITS d)
                       (productI (intDotINBITS d) a b) clamp))
        (unpack (intDotINBITS d) S0r) (unpack (intDotINBITS d) S1r) /\
  (intDotC DOT2_U32_U16 false S0r S1r
     = zip_with productU (unpack 16 S0r) (unpack 16 S1r) /\
   intDotC DOT4_U32_U8 false S0r S1r
     = zip_with productU (unpack 8 S0r) (unpack 8 S1r) /\
   intDotC DOT8_U32_U4 false S0r S1r
     = zip_with productU (unpack 4 S0r) (unpack 4 S1r)) /\
  (intDotC DOT4_U32_U8 false 0x000000FF 0x000000FF = [65025; 0; 0; 0] /\
   2 ^ 8 - 1 < 65025).
Proof.
  intros Hs.
  assert (HN : 0 < intDotINBITS d < 32) by (destruct d; split; reflexivity).
  split.
  { destruct d; try discriminate Hs;
      cbn [intDotOpImpl intDotC intDotSigned intDotINBITS];
      unfold Inst_VOP3P__V_DOT2_I32_I16.opImpl, Inst_VOP3P__V_DOT4_I32_I8.opImpl,
             Inst_VOP3P__V_DOT8_I32_I4.opImpl, signedDot; reflexivity. }
  unfold intDotC. rewrite Hs.
  split; [apply signedC_range, HN |].
  split; [apply signedC_truncate, HN |].
  split; [repeat split; apply unsignedC_raw |].
  split; [vm_compute; reflexivity | lia].
Qed.

Lemma signed_dot_terms_in_range_witness :
  intDotSigned DOT4_I32_I8 = true /\
  Forall (in_signed_range (intDotINBITS DOT4_I32_I8))
    (intDotC DOT4_I32_I8 false 0x807FFF01 0x7F7F7F7F).
Proof.
  split; [reflexivity |].
  exact (proj1 (proj2 (signed_dot_terms_in_range DOT4_I32_I8
                         0x807FFF01 0x7F7F7F7F 0 false eq_refl))).
Defined.

(** C6.  DOT4_I32_I8 on one lane, S0 packing the signed bytes
    {1, -1, 127, -128} (element 0 first), S1 packing {1, 1, 1, 1},
    accumulator 0, saturation on: the element products are
    {1, -1, 127, -128}; each lies in the int8 range and the clamp returns it
    unchanged; they sum to -1; the lane result is the 32-bit pattern of
    -1. *)
Theorem dot4_i32_i8_mixed_bytes :
  (sext 8 <$> unpack 8 0x807FFF01) = (to_uint64 <$> [1; -1; 127; -128]) /\
  unpack 8 0x01010101 = [1; 1; 1; 1] /\
  zip_with (productI 8) (unpack 8 0x807FFF01) (unpack 8 0x01010101)
    = [1; -1; 127; -128] /\
  Forall (fun c => in_signed_range 8 c /\ dotClampI 8 c true = c /\
                   elementI 8 true c = c) [1; -1; 127; -128] /\
  signedC 8 true 0x807FFF01 0x01010101 = [1; -1; 127; -128] /\
  sumI (signedC 8 true 0x807FFF01 0x01010101) = -1 /\
  Inst_VOP3P__V_DOT4_I32_I8.opImpl 0x807FFF01 0x01010101 0 true = 0xFFFFFFFF /\
  to_int32 (Inst_VOP3P__V_DOT4_I32_I8.opImpl 0x807FFF01 0x01010101 0 true) = -1.
Proof.
  conjuncts;
    lazymatch goal with
    | |- Forall _ _ =>
        repeat (apply Forall_cons;
                [vm_compute; conjuncts; first [reflexivity | discriminate] |]);
        apply Forall_nil
    | |- _ => vm_compute; reflexivity
    end.
Qed.

(** C1, evaluated on the code.  DOT2_U32_U16 on one lane with both
    sources all ones, accumulator 0, saturation on: each raw product is
    0xFFFE0001; [dotClampU<16>] reads it through [std::clamp<int32_t>] as
    -131071 and returns the lower bound 0, not 0xFFFF; the lane result is
    0, not 0x1FFFE. *)
Theorem dot2_u32_u16_all_ones_saturated :
  unpack 16 0xFFFFFFFF = [0xFFFF; 0xFFFF] /\
  zip_with productU (unpack 16 0xFFFFFFFF) (unpack 16 0xFFFFFFFF)
    = [0xFFFE0001; 0xFFFE0001] /\
  to_int32 0xFFFE0001 = -131071 /\
  dotClampU 16 0xFFFE0001 true = 0 /\
  unsignedC 16 true 0xFFFFFFFF 0xFFFFFFFF = [0; 0] /\
  Inst_VOP3P__V_DOT2_U32_U16.opImpl 0xFFFFFFFF 0xFFFFFFFF 0 true = 0 /\
  Inst_VOP3P__V_DOT2_U32_U16.opImpl 0xFFFFFFFF 0xFFFFFFFF 0 true <> 0x1FFFE.
Proof.
  conjuncts; try (vm_compute; reflexivity).
  vm_compute. discriminate.
Qed.

Lemma dotClampU_cases (N v : Z) :
  0 < N < 32 -> is_uint32 v ->
  dotClampU N v true = if v <? 2 ^ 31 then Z.min v (2 ^ N - 1) else 0.
Proof.
  intros HN Hv. unfold dotClampU. cbn [negb].
  assert (Hp : 0 < 2 ^ N) by (apply Z.pow_pos_nonneg; lia).
  assert (Hq : 2 ^ N <= 2 ^ 31) by (apply Z.pow_le_mono_r; lia).
  rewrite Z.shiftl_1_l. change (to_uint32 0) with 0. change (to_int32 0) with 0.
  assert (Hmax : to_int32 (to_uint32 (to_int32 (2 ^ N - 1))) = 2 ^ N - 1).
  { rewrite to_int32_to_uint32.
    assert (Hi : is_int32 (2 ^ N - 1)) by (unfold is_int32; pow_consts; lia).
    rewrite !(to_int32_id (2 ^ N - 1) Hi). reflexivity. }
  rewrite Hmax. unfold std_clamp, is_uint32 in *. pow_consts.
  destruct (Z.ltb_spec v 2147483648).
  - rewrite (to_int32_id v) by (unfold is_int32; pow_consts; lia).
    repeat match goal with
           | |- context [?a <? ?b] => destruct (Z.ltb_spec a b)
           end; try lia;
      first [rewrite Z.min_l by lia | rewrite Z.min_r by lia];
      apply to_uint32_id; unfold is_uint32; pow_consts; lia.
  - assert (Hneg : to_int32 v = v - 4294967296).
    { unfold to_int32, wrapS. change (32 - 1) with 31. pow_consts.
      rewrite <- (Z.mod_unique (v + 2147483648) 4294967296 1 (v - 2147483648))
        by lia. lia. }
    rewrite Hneg. destruct (Z.ltb_spec (v - 4294967296) 0); [reflexivity | lia].
Qed.

(** Where [dotClampU] saturates and where it does not: a value below 2^31
    is clamped to 2^N - 1; a value from 2^31 on is negative once read as
    [int32_t] and comes back as 0. *)
Lemma dotClampU_saturate (N v : Z) :
  0 < N < 32 -> is_uint32 v ->
  dotClampU N v true = if v <? 2 ^ 31 then Z.min v (2 ^ N - 1) else 0.
Proof. intros HN Hv. apply dotClampU_cases; assumption. Qed.

Lemma dotClampU_saturate_witness :
  0 < 16 < 32 /\ is_uint32 0xFFFE0001 /\
  dotClampU 16 0xFFFE0001 true
    = if 0xFFFE0001 <? 2 ^ 31 then Z.min 0xFFFE0001 (2 ^ 16 - 1) else 0.
Proof.
  assert (HN : 0 < 16 < 32) by lia.
  assert (Hv : is_uint32 0xFFFE0001) by (unfold is_uint32; lia).
  split; [exact HN |]. split; [exact Hv |].
  exact (dotClampU_saturate 16 0xFFFE0001 HN Hv).
Defined.

(** The 8-bit and 4-bit unsigned dot products never meet that case: the
    product of two fields of at most 8 bits is below 2^16, so with
    saturation every element is the product clamped to 2^N - 1. *)
Lemma elementU_saturate_narrow (N a b : Z) :
  N = 4 \/ N = 8 -> 0 <= a < 2 ^ N -> 0 <= b < 2 ^ N ->
  elementU N true (productU a b) = Z.min (a * b) (2 ^ N - 1).
Proof.
  intros HN Ha Hb.
  assert (Hab : 0 <= a * b < 2 ^ 16).
  { assert (2 ^ N <= 2 ^ 8) by (apply Z.pow_le_mono_r; lia).
    change (2 ^ 8) with 256 in *. pow_consts. nia. }
  pow_consts.
  assert (Hprod : productU a b = a * b).
  { apply to_uint32_id. unfold is_uint32. pow_consts. lia. }
  unfold elementU. rewrite Hprod, dotClampU_cases
    by (unfold is_uint32; pow_consts; lia).
  pow_consts. destruct (Z.ltb_spec (a * b) 2147483648); [reflexivity | lia].
Qed.

Lemma elementU_saturate_narrow_witness :
  (8 = 4 \/ 8 = 8) /\ 0 <= 255 < 2 ^ 8 /\
  elementU 8 true (productU 255 255) = Z.min (255 * 255) (2 ^ 8 - 1).
Proof.
  assert (HN : 8 = 4 \/ 8 = 8) by (right; reflexivity).
  assert (Ha : 0 <= 255 < 2 ^ 8) by lia.
  split; [exact HN |]. split; [exact Ha |].
  exact (elementU_saturate_narrow 8 255 255 HN Ha Ha).
Defined.

(** ** Packed 16-bit instructions: what each lambda computes *)

Lemma std_clamp_saturate v lo hi : lo <= hi -> std_clamp v lo hi = saturate lo hi v.
Proof.
  intros H. unfold std_clamp, saturate.
  destruct (Z.ltb_spec v lo); [lia |]. destruct (Z.ltb_spec hi v); lia.
Qed.

Lemma clampI16_saturate_exact v :
  clampI16 v true = saturate (- 2 ^ 15) (2 ^ 15 - 1) v.
Proof.
  unfold clampI16. cbn [negb].
  change (to_int32 (- 2 ^ 15)) with (- 2 ^ 15).
  change (to_int32 (2 ^ 15 - 1)) with (2 ^ 15 - 1).
  rewrite std_clamp_saturate by (pow_consts; lia).
  apply to_int16_id. unfold is_int16, saturate. pow_consts. lia.
Qed.

Lemma clampU16_exact v :
  is_uint32 v ->
  clampU16 v true = Z.min v (2 ^ 16 - 1) /\ clampU16 v false = v mod 2 ^ 16.
Proof.
  intros Hv. unfold clampU16. cbn [negb]. split; [| reflexivity].
  change (to_uint32 0) with 0. change (to_uint32 (2 ^ 16 - 1)) with (2 ^ 16 - 1).
  rewrite std_clamp_saturate by (pow_consts; lia).
  unfold is_uint32, saturate in *. pow_consts.
  rewrite to_uint16_id by (unfold is_uint16; pow_consts; lia). lia.
Qed.

(** The fixed-width unsigned clamp: on a uint32 value, [clampU16] with
    saturation is the minimum of the value and 0xFFFF, and without
    saturation it keeps the low 16 bits. *)
Theorem clampU16_min_or_low_half (v : Z) :
  is_uint32 v ->
  clampU16 v true = Z.min v (2 ^ 16 - 1) /\
  clampU16 v false = v mod 2 ^ 16 /\
  is_uint16 (clampU16 v true) /\ is_uint16 (clampU16 v false).
Proof.
  intros Hv. destruct (clampU16_exact v Hv) as [E1 E2].
  rewrite E1, E2. conjuncts; try reflexivity.
  - unfold is_uint16, is_uint32 in *. pow_consts. lia.
  - unfold is_uint16. apply Z.mod_pos_bound. lia.
Qed.

Lemma clampU16_min_or_low_half_witness :
  is_uint32 0xFFFFFFFF /\
  clampU16 0xFFFFFFFF true = Z.min 0xFFFFFFFF (2 ^ 16 - 1).
Proof.
  assert (Hv : is_uint32 0xFFFFFFFF) by (unfold is_uint32; lia).
  split; [exact Hv |].
  exact (proj1 (clampU16_min_or_low_half 0xFFFFFFFF Hv)).
Defined.

(** PK_ADD_I16 and PK_SUB_I16 on int16 elements: with saturation the
    result is the exact sum (difference) saturated to the int16 range;
    without, it is the exact sum (difference) truncated to 16 bits and
    read as signed. *)
Theorem pk_add_sub_i16_exact (S0 S1 : Z) :
  is_int16 S0 -> is_int16 S1 ->
  Inst_VOP3P__V_PK_ADD_I16.opImpl S0 S1 true
    = saturate (- 2 ^ 15) (2 ^ 15 - 1) (S0 + S1) /\
  Inst_VOP3P__V_PK_ADD_I16.opImpl S0 S1 false = truncate_sext 16 (S0 + S1) /\
  Inst_VOP3P__V_PK_SUB_I16.opImpl S0 S1 true
    = saturate (- 2 ^ 15) (2 ^ 15 - 1) (S0 - S1) /\
  Inst_VOP3P__V_PK_SUB_I16.opImpl S0 S1 false = truncate_sext 16 (S0 - S1).
Proof.
  intros H0 H1.
  unfold Inst_VOP3P__V_PK_ADD_I16.opImpl, Inst_VOP3P__V_PK_SUB_I16.opImpl.
  assert (Ea : to_int32 (S0 + S1) = S0 + S1)
    by (apply to_int32_id; unfold is_int16, is_int32 in *; pow_consts; lia).
  assert (Es : to_int32 (S0 - S1) = S0 - S1)
    by (apply to_int32_id; unfold is_int16, is_int32 in *; pow_consts; lia).
  rewrite Ea, Es, !clampI16_saturate_exact, !clampI16_wrap.
  conjuncts; reflexivity.
Qed.

Lemma pk_add_sub_i16_exact_witness :
  is_int16 (-32768) /\ is_int16 1 /\
  Inst_VOP3P__V_PK_SUB_I16.opImpl (-32768) 1 true
    = saturate (- 2 ^ 15) (2 ^ 15 - 1) (-32768 - 1).
Proof.
  assert (H0 : is_int16 (-32768)) by (unfold is_int16; lia).
  assert (H1 : is_int16 1) by (unfold is_int16; lia).
  split; [exact H0 |]. split; [exact H1 |].
  exact (proj1 (proj2 (proj2 (pk_add_sub_i16_exact (-32768) 1 H0 H1)))).
Defined.

(** PK_MAD_I16 on int16 elements: the product plus the addend never
    leaves int32_t, so with saturation the result is the exact value of
    S0*S1 + S2 saturated to the int16 range, and without saturation its
    16-bit truncation read as signed. *)
Theorem pk_mad_i16_exact (S0 S1 S2 : Z) :
  is_int16 S0 -> is_int16 S1 -> is_int16 S2 ->
  is_int32 (S0 * S1 + S2) /\
  Inst_VOP3P__V_PK_MAD_I16.opImpl S0 S1 S2 true
    = saturate (- 2 ^ 15) (2 ^ 15 - 1) (S0 * S1 + S2) /\
  Inst_VOP3P__V_PK_MAD_I16.opImpl S0 S1 S2 false
    = truncate_sext 16 (S0 * S1 + S2).
Proof.
  intros H0 H1 H2. unfold Inst_VOP3P__V_PK_MAD_I16.opImpl.
  assert (Hp : - 2 ^ 30 <= S0 * S1 <= 2 ^ 30).
  { unfold is_int16 in *. pow_consts. change (2 ^ 30) with 1073741824. nia. }
  change (2 ^ 30) with 1073741824 in Hp.
  assert (Em : to_int32 (S0 * S1) = S0 * S1)
    by (apply to_int32_id; unfold is_int32; pow_consts; lia).
  assert (Hr : is_int32 (S0 * S1 + S2))
    by (unfold is_int16, is_int32 in *; pow_consts; lia).
  rewrite Em, (to_int32_id _ Hr), clampI16_saturate_exact, clampI16_wrap.
  conjuncts; [exact Hr | reflexivity | reflexivity].
Qed.

Lemma pk_mad_i16_exact_witness :
  is_int16 (-32768) /\ is_int16 32767 /\
  Inst_VOP3P__V_PK_MAD_I16.opImpl (-32768) (-32768) 32767 true
    = saturate (- 2 ^ 15) (2 ^ 15 - 1) ((-32768) * (-32768) + 32767).
Proof.
  assert (H0 : is_int16 (-32768)) by (unfold is_int16; lia).
  assert (H1 : is_int16 32767) by (unfold is_int16; lia).
  split; [exact H0 |]. split; [exact H1 |].
  exact (proj1 (proj2 (pk_mad_i16_exact (-32768) (-32768) 32767 H0 H0 H1))).
Defined.

(** PK_MAX_I16 and PK_MIN_I16 on int16 elements return the larger and the
    smaller operand; the saturate flag, though passed to [clampI16], cannot
    change the result. *)
Theorem pk_max_min_i16_exact (S0 S1 : Z) (clamp : bool) :
  is_int16 S0 -> is_int16 S1 ->
  Inst_VOP3P__V_PK_MAX_I16.opImpl S0 S1 clamp = Z.max S0 S1 /\
  Inst_VOP3P__V_PK_MIN_I16.opImpl S0 S1 clamp = Z.min S0 S1.
Proof.
  intros H0 H1.
  assert (Hc : forall v, is_int16 v -> clampI16 v clamp = v).
  { intros v Hv. destruct clamp.
    - rewrite clampI16_saturate_exact. unfold saturate, is_int16 in *.
      pow_consts. lia.
    - unfold clampI16. cbn [negb]. apply to_int16_id, Hv. }
  unfold Inst_VOP3P__V_PK_MAX_I16.opImpl, Inst_VOP3P__V_PK_MIN_I16.opImpl.
  rewrite Z.geb_leb.
  destruct (Z.leb_spec S1 S0); destruct (Z.ltb_spec S0 S1);
    rewrite !Hc by assumption; lia.
Qed.

Lemma pk_max_min_i16_exact_witness :
  is_int16 (-5) /\ is_int16 7 /\
  Inst_VOP3P__V_PK_MAX_I16.opImpl (-5) 7 true = Z.max (-5) 7.
Proof.
  assert (H0 : is_int16 (-5)) by (unfold is_int16; lia).
  assert (H1 : is_int16 7) by (unfold is_int16; lia).
  split; [exact H0 |]. split; [exact H1 |].
  exact (proj1 (pk_max_min_i16_exact (-5) 7 true H0 H1)).
Defined.

(** PK_ADD_U16 on uint16 elements: with saturation the result is the
    exact sum capped at 0xFFFF; without, the sum modulo 2^16. *)
Theorem pk_add_u16_exact (S0 S1 : Z) :
  is_uint16 S0 -> is_uint16 S1 ->
  Inst_VOP3P__V_PK_ADD_U16.opImpl S0 S1 true = Z.min (S0 + S1) (2 ^ 16 - 1) /\
  Inst_VOP3P__V_PK_ADD_U16.opImpl S0 S1 false = (S0 + S1) mod 2 ^ 16.
Proof.
  intros H0 H1. unfold Inst_VOP3P__V_PK_ADD_U16.opImpl.
  assert (Hs : is_uint32 (S0 + S1))
    by (unfold is_uint16, is_uint32 in *; pow_consts; lia).
  rewrite to_uint32_to_int32, (to_uint32_id _ Hs).
  apply clampU16_exact, Hs.
Qed.

Lemma pk_add_u16_exact_witness :
  is_uint16 0xFFFF /\ is_uint16 2 /\
  Inst_VOP3P__V_PK_ADD_U16.opImpl 0xFFFF 2 true = Z.min (0xFFFF + 2) (2 ^ 16 - 1).
Proof.
  assert (H0 : is_uint16 0xFFFF) by (unfold is_uint16; lia).
  assert (H1 : is_uint16 2) by (unfold is_uint16; lia).
  split; [exact H0 |]. split; [exact H1 |].
  exact (proj1 (pk_add_u16_exact 0xFFFF 2 H0 H1)).
Defined.

(** PK_SUB_U16 on uint16 elements.  Without saturation the result is the
    difference modulo 2^16.  With saturation it is the exact difference when
    S1 <= S0; when S1 > S0 the negative [int] difference becomes a value
    above 0xFFFF once passed as [uint32_t], and the result is 0xFFFF, not
    0. *)
Theorem pk_sub_u16_underflow (S0 S1 : Z) :
  is_uint16 S0 -> is_uint16 S1 ->
  Inst_VOP3P__V_PK_SUB_U16.opImpl S0 S1 false = (S0 - S1) mod 2 ^ 16 /\
  Inst_VOP3P__V_PK_SUB_U16.opImpl S0 S1 true
    = (if S1 <=? S0 then S0 - S1 else 2 ^ 16 - 1).
Proof.
  intros H0 H1. unfold Inst_VOP3P__V_PK_SUB_U16.opImpl.
  rewrite to_uint32_to_int32.
  destruct (clampU16_exact (to_uint32 (S0 - S1)) (to_uint32_range _)) as [Et Ef].
  rewrite Et, Ef. split.
  - unfold to_uint32, wrapU. apply Z.mod_mod_divide. exists (2 ^ 16). reflexivity.
  - unfold is_uint16 in *. pow_consts. destruct (Z.leb_spec S1 S0).
    + rewrite to_uint32_id by (unfold is_uint32; pow_consts; lia). lia.
    + assert (E : to_uint32 (S0 - S1) = S0 - S1 + 4294967296).
      { unfold to_uint32, wrapU. pow_consts. symmetry.
        apply (Z.mod_unique _ _ (-1)); lia. }
      rewrite E. lia.
Qed.

Lemma pk_sub_u16_underflow_witness :
  is_uint16 1 /\ is_uint16 2 /\
  Inst_VOP3P__V_PK_SUB_U16.opImpl 1 2 true = (if 2 <=? 1 then 1 - 2 else 2 ^ 16 - 1).
Proof.
  assert (H0 : is_uint16 1) by (unfold is_uint16; lia).
  assert (H1 : is_uint16 2) by (unfold is_uint16; lia).
  split; [exact H0 |]. split; [exact H1 |].
  exact (proj2 (pk_sub_u16_underflow 1 2 H0 H1)).
Defined.

Lemma is_int32b_true z : - 2 ^ 31 <= z < 2 ^ 31 -> is_int32b z = true.
Proof.
  intros Hz. unfold is_int32b. apply andb_true_intro.
  split; [apply Z.leb_le | apply Z.ltb_lt]; lia.
Qed.

Lemma is_int32b_false z : 2 ^ 31 <= z -> is_int32b z = false.
Proof.
  intros Hz. unfold is_int32b. apply andb_false_intro2, Z.ltb_ge, Hz.
Qed.

(** PK_MAD_U16 on uint16 elements.  S0*S1 + S2 is computed in [int]:
    the lambda has a defined result exactly when that value is below 2^31,
    and the result is then the value capped at 0xFFFF with the saturate
    flag and the value modulo 2^16 without it.  From 2^31 on the [int]
    arithmetic overflows and the source defines no result.  On the defined
    range the wrapping lambda used by [execute] returns the same value. *)
Theorem pk_mad_u16_exact (S0 S1 S2 : Z) (clamp : bool) :
  is_uint16 S0 -> is_uint16 S1 -> is_uint16 S2 ->
  Inst_VOP3P__V_PK_MAD_U16.opImpl_checked S0 S1 S2 clamp
    = (if S0 * S1 + S2 <? 2 ^ 31
       then Some (if clamp then Z.min (S0 * S1 + S2) (2 ^ 16 - 1)
                  else (S0 * S1 + S2) mod 2 ^ 16)
       else None) /\
  (S0 * S1 + S2 < 2 ^ 31 ->
   Inst_VOP3P__V_PK_MAD_U16.opImpl S0 S1 S2 clamp
     = if clamp then Z.min (S0 * S1 + S2) (2 ^ 16 - 1)
       else (S0 * S1 + S2) mod 2 ^ 16).
Proof.
  intros H0 H1 H2.
  assert (Hnn : 0 <= S0 * S1 /\ 0 <= S2)
    by (unfold is_uint16 in *; pow_consts; nia).
  assert (Hval : S0 * S1 + S2 < 2 ^ 31 ->
            clampU16 (to_uint32 (S0 * S1 + S2)) clamp
              = if clamp then Z.min (S0 * S1 + S2) (2 ^ 16 - 1)
                else (S0 * S1 + S2) mod 2 ^ 16).
  { intros Hlt.
    assert (Hs : is_uint32 (S0 * S1 + S2))
      by (unfold is_uint32; pow_consts; lia).
    rewrite (to_uint32_id _ Hs).
    destruct (clampU16_exact _ Hs) as [Et Ef]. destruct clamp; assumption. }
  split.
  - unfold Inst_VOP3P__V_PK_MAD_U16.opImpl_checked, int_mul, int_add.
    destruct (Z.ltb_spec (S0 * S1 + S2) (2 ^ 31)) as [Hlt | Hge].
    + rewrite (is_int32b_true (S0 * S1)) by (pow_consts; lia).
      rewrite (is_int32b_true (S0 * S1 + S2)) by (pow_consts; lia).
      f_equal. apply Hval, Hlt.
    + destruct (is_int32b (S0 * S1)) eqn:Em; [| reflexivity].
      rewrite (is_int32b_false (S0 * S1 + S2)) by (pow_consts; lia).
      reflexivity.
  - intros Hlt. unfold Inst_VOP3P__V_PK_MAD_U16.opImpl.
    rewrite to_uint32_to_int32, to_uint32_int32_add_l. apply Hval, Hlt.
Qed.

Lemma pk_mad_u16_exact_witness :
  is_uint16 0xFFFF /\
  Inst_VOP3P__V_PK_MAD_U16.opImpl_checked 0xFFFF 0xFFFF 0xFFFF true
    = (if 0xFFFF * 0xFFFF + 0xFFFF <? 2 ^ 31
       then Some (if true then Z.min (0xFFFF * 0xFFFF + 0xFFFF) (2 ^ 16 - 1)
                  else (0xFFFF * 0xFFFF + 0xFFFF) mod 2 ^ 16)
       else None).
Proof.
  assert (H0 : is_uint16 0xFFFF) by (unfold is_uint16; lia).
  split; [exact H0 |].
  exact (proj1 (pk_mad_u16_exact 0xFFFF 0xFFFF 0xFFFF true H0 H0 H0)).
Defined.

(** PK_MAX_U16 and PK_MIN_U16 on uint16 elements return the larger and
    the smaller operand, whatever the saturate flag. *)
Theorem pk_max_min_u16_exact (S0 S1 : Z) (clamp : bool) :
  is_uint16 S0 -> is_uint16 S1 ->
  Inst_VOP3P__V_PK_MAX_U16.opImpl S0 S1 clamp = Z.max S0 S1 /\
  Inst_VOP3P__V_PK_MIN_U16.opImpl S0 S1 clamp = Z.min S0 S1.
Proof.
  intros H0 H1.
  assert (Hc : forall v, is_uint16 v -> clampU16 (to_uint32 v) clamp = v).
  { intros v Hv.
    assert (Hv32 : is_uint32 v)
      by (unfold is_uint16, is_uint32 in *; pow_consts; lia).
    rewrite (to_uint32_id _ Hv32).
    destruct (clampU16_exact v Hv32) as [Et Ef].
    destruct clamp; [rewrite Et | rewrite Ef].
    - unfold is_uint16 in *. pow_consts. lia.
    - apply Z.mod_small. exact Hv. }
  unfold Inst_VOP3P__V_PK_MAX_U16.opImpl, Inst_VOP3P__V_PK_MIN_U16.opImpl.
  rewrite Z.geb_leb.
  destruct (Z.leb_spec S1 S0); destruct (Z.ltb_spec S0 S1);
    rewrite !Hc by assumption; lia.
Qed.

Lemma pk_max_min_u16_exact_witness :
  is_uint16 0xFFFF /\ is_uint16 7 /\
  Inst_VOP3P__V_PK_MIN_U16.opImpl 0xFFFF 7 true = Z.min 0xFFFF 7.
Proof.
  assert (H0 : is_uint16 0xFFFF) by (unfold is_uint16; lia).
  assert (H1 : is_uint16 7) by (unfold is_uint16; lia).
  split; [exact H0 |]. split; [exact H1 |].
  exact (proj2 (pk_max_min_u16_exact 0xFFFF 7 true H0 H1)).
Defined.

Lemma shift_amount S0 :
  to_uint32 (bits S0 3 0) = S0 mod 16 /\ 0 <= S0 mod 16 <= 15.
Proof.
  pose proof (Z.mod_pos_bound S0 16 ltac:(lia)) as Hr.
  rewrite bits_mod by lia. change (2 ^ 0) with 1.
  change (2 ^ (3 - 0 + 1)) with 16. rewrite Z.div_1_r.
  split; [| lia]. apply to_uint32_id. unfold is_uint32. pow_consts. lia.
Qed.

(** PK_LSHLREV_B16 and PK_LSHRREV_B16 on uint16 elements: only the low
    four bits of S0 are used as the shift amount; the left shift returns
    S1 * 2^(S0 mod 16) modulo 2^16, the right shift the floor of
    S1 / 2^(S0 mod 16); the saturate flag is not read. *)
Theorem pk_lshlrev_lshrrev_b16_exact (S0 S1 : Z) (clamp : bool) :
  is_uint16 S0 -> is_uint16 S1 ->
  Inst_VOP3P__V_PK_LSHLREV_B16.opImpl S0 S1 clamp
    = (S1 * 2 ^ (S0 mod 16)) mod 2 ^ 16 /\
  Inst_VOP3P__V_PK_LSHRREV_B16.opImpl S0 S1 clamp = S1 / 2 ^ (S0 mod 16).
Proof.
  intros H0 H1.
  unfold Inst_VOP3P__V_PK_LSHLREV_B16.opImpl, Inst_VOP3P__V_PK_LSHRREV_B16.opImpl.
  destruct (shift_amount S0) as [-> Hr]. set (sh := S0 mod 16) in *.
  assert (Hp : 0 < 2 ^ sh) by (apply Z.pow_pos_nonneg; lia).
  assert (Hq : 2 ^ sh <= 2 ^ 15) by (apply Z.pow_le_mono_r; lia).
  rewrite Z.shiftl_mul_pow2, Z.shiftr_div_pow2 by lia.
  unfold is_uint16 in *. pow_consts. split.
  - rewrite to_int32_id by (unfold is_int32; pow_consts; nia). reflexivity.
  - apply to_uint16_id. unfold is_uint16. pow_consts. split.
    + apply Z.div_pos; lia.
    + apply Z.div_lt_upper_bound; [exact Hp | nia].
Qed.

Lemma pk_lshlrev_lshrrev_b16_exact_witness :
  is_uint16 0x0013 /\ is_uint16 0xFFFF /\
  Inst_VOP3P__V_PK_LSHLREV_B16.opImpl 0x0013 0xFFFF false
    = (0xFFFF * 2 ^ (0x0013 mod 16)) mod 2 ^ 16.
Proof.
  assert (H0 : is_uint16 0x0013) by (unfold is_uint16; lia).
  assert (H1 : is_uint16 0xFFFF) by (unfold is_uint16; lia).
  split; [exact H0 |]. split; [exact H1 |].
  exact (proj1 (pk_lshlrev_lshrrev_b16_exact 0x0013 0xFFFF false H0 H1)).
Defined.

(** ** Dot products: the unpacking loop *)

Lemma unpack_digits N Sr :
  0 < N <= 32 ->
  unpack N Sr
    = (fun i : nat => (Sr / 2 ^ (Z.of_nat i * N)) mod 2 ^ N)
        <$> seq 0 (Z.to_nat (32 / N)).
Proof.
  intros HN. unfold unpack, seqZ. rewrite <- list_fmap_compose.
  apply list_fmap_ext. intros _ i _. unfold compose.
  rewrite bits_mod by nia. f_equal; f_equal; f_equal; lia.
Qed.

Lemma fieldsValue_cons w e l :
  fieldsValue w (e :: l) = e + 2 ^ w * fieldsValue w l.
Proof. reflexivity. Qed.

Lemma digits_value w v n : forall m : nat,
  0 < w ->
  fieldsValue w ((fun i : nat => (v / 2 ^ (Z.of_nat i * w)) mod 2 ^ w) <$> seq m n)
    = (v / 2 ^ (Z.of_nat m * w)) mod 2 ^ (Z.of_nat n * w).
Proof.
  induction n as [| n IH]; intros m Hw.
  - cbn. rewrite Z.mod_1_r. reflexivity.
  - cbn [seq]. rewrite fmap_cons, fieldsValue_cons.
    rewrite IH by exact Hw.
    assert (Hpw : 0 < 2 ^ w) by (apply Z.pow_pos_nonneg; lia).
    assert (Hpm : 0 < 2 ^ (Z.of_nat m * w)) by (apply Z.pow_pos_nonneg; nia).
    assert (Hpn : 0 < 2 ^ (Z.of_nat n * w)) by (apply Z.pow_pos_nonneg; nia).
    replace (Z.of_nat (S m) * w) with (Z.of_nat m * w + w) by lia.
    replace (Z.of_nat (S n) * w) with (w + Z.of_nat n * w) by lia.
    rewrite !Z.pow_add_r by nia.
    rewrite <- Z.div_div by lia.
    rewrite Z.rem_mul_r by lia. reflexivity.
Qed.

(** The first loop of every dot-product lambda loses nothing: for INBITS
    in {4, 8, 16} it yields 32/INBITS fields, each below 2^INBITS, and a
    uint32 lane is the number whose base-2^INBITS digits, low field first,
    are those fields. *)
Theorem unpack_round_trip (N Sr : Z) :
  N = 4 \/ N = 8 \/ N = 16 ->
  is_uint32 Sr ->
  length (unpack N Sr) = Z.to_nat (32 / N) /\
  Forall (fun e => 0 <= e < 2 ^ N) (unpack N Sr) /\
  fieldsValue N (unpack N Sr) = Sr.
Proof.
  intros HN HS. rewrite unpack_digits by lia. split; [| split].
  - rewrite length_fmap, length_seq. reflexivity.
  - apply Forall_fmap, Forall_forall. intros i _. unfold compose.
    apply Z.mod_pos_bound, Z.pow_pos_nonneg; lia.
  - rewrite digits_value by lia. change (Z.of_nat 0 * N) with 0.
    change (2 ^ 0) with 1. rewrite Z.div_1_r.
    replace (Z.of_nat (Z.to_nat (32 / N)) * N) with 32
      by (destruct HN as [-> | [-> | ->]]; reflexivity).
    apply Z.mod_small, HS.
Qed.

Lemma unpack_round_trip_witness :
  (8 = 4 \/ 8 = 8 \/ 8 = 16) /\ is_uint32 0x807FFF01 /\
  fieldsValue 8 (unpack 8 0x807FFF01) = 0x807FFF01.
Proof.
  assert (HN : 8 = 4 \/ 8 = 8 \/ 8 = 16) by (right; left; reflexivity).
  assert (HS : is_uint32 0x807FFF01) by (unfold is_uint32; lia).
  split; [exact HN |]. split; [exact HS |].
  exact (proj2 (proj2 (unpack_round_trip 8 0x807FFF01 HN HS))).
Defined.

Lemma unpack_fields N Sr :
  0 < N <= 32 -> Forall (fun e => 0 <= e < 2 ^ N) (unpack N Sr).
Proof.
  intros HN. rewrite unpack_digits by lia.
  apply Forall_fmap, Forall_forall. intros i _. unfold compose.
  apply Z.mod_pos_bound, Z.pow_pos_nonneg; lia.
Qed.

Lemma zip_with_ext_Forall {A B} (P : A -> Prop) (f g : A -> A -> B) :
  (forall a b, P a -> P b -> f a b = g a b) ->
  forall l k, Forall P l -> Forall P k -> zip_with f l k = zip_with g l k.
Proof.
  intros Hfg l. induction l as [| a l IH]; intros [| b k] Hl Hk;
    cbn [zip_with]; try reflexivity.
  inversion Hl; subst. inversion Hk; subst. f_equal; auto.
Qed.

(** ** Dot products: what the second loop adds *)

Lemma to_int32_to_uint64 x : to_int32 (to_uint64 x) = to_int32 x.
Proof. solve_wrap. Qed.

Lemma to_int32_add_multiple x m : to_int32 (x + 4294967296 * m) = to_int32 x.
Proof.
  unfold to_int32, wrapS. change (32 - 1) with 31. pow_consts.
  replace (x + 4294967296 * m + 2147483648)
    with (x + 2147483648 + m * 4294967296) by lia.
  rewrite Z.mod_add by lia. reflexivity.
Qed.

Lemma truncate_sext_field N a :
  0 < N -> 0 <= a < 2 ^ N ->
  truncate_sext N a = (if a <? 2 ^ (N - 1) then a else a - 2 ^ N) /\
  in_signed_range N (truncate_sext N a).
Proof.
  intros HN Ha. split; [| apply truncate_sext_range, HN].
  unfold truncate_sext. rewrite Z.mod_small by exact Ha. reflexivity.
Qed.

(** The 64-bit product of the sign-extended fields, stored in an
    [int32_t], is the exact product of the fields read as signed. *)
Lemma productI_exact N a b :
  0 < N <= 16 -> 0 <= a < 2 ^ N -> 0 <= b < 2 ^ N ->
  productI N a b = truncate_sext N a * truncate_sext N b.
Proof.
  intros HN Ha Hb. unfold productI.
  destruct (truncate_sext_field N a ltac:(lia) Ha) as [Ea Ra].
  destruct (truncate_sext_field N b ltac:(lia) Hb) as [Eb Rb].
  rewrite to_int32_to_uint64, !sext_field by lia.
  set (sa := truncate_sext N a) in *. set (sb := truncate_sext N b) in *.
  assert (Hh : 0 < 2 ^ (N - 1) <= 2 ^ 15).
  { split; [apply Z.pow_pos_nonneg | apply Z.pow_le_mono_r]; lia. }
  unfold in_signed_range in *. pow_consts.
  assert (Hka : exists ka, (if a <? 2 ^ (N - 1) then a
                             else a + 18446744073709551616 - 2 ^ N)
                            = sa + 4294967296 * ka).
  { destruct (a <? 2 ^ (N - 1)); [exists 0 | exists 4294967296]; lia. }
  assert (Hkb : exists kb, (if b <? 2 ^ (N - 1) then b
                             else b + 18446744073709551616 - 2 ^ N)
                            = sb + 4294967296 * kb).
  { destruct (b <? 2 ^ (N - 1)); [exists 0 | exists 4294967296]; lia. }
  destruct Hka as [ka ->]. destruct Hkb as [kb ->].
  replace ((sa + 4294967296 * ka) * (sb + 4294967296 * kb))
    with (sa * sb + 4294967296 * (sa * kb + ka * sb + 4294967296 * ka * kb))
    by ring.
  rewrite to_int32_add_multiple. apply to_int32_id.
  unfold is_int32. pow_consts. nia.
Qed.

Lemma elementI_saturate_exact N c :
  0 < N < 32 ->
  elementI N true c = saturate (- 2 ^ (N - 1)) (2 ^ (N - 1) - 1) c.
Proof.
  intros HN. rewrite elementI_truncate by exact HN.
  rewrite truncate_sext_id
    by (try apply dotClampI_saturate_range; lia).
  unfold dotClampI. cbn [negb].
  destruct (dotClampI_bounds N HN) as [-> ->].
  assert (0 < 2 ^ (N - 1)) by (apply Z.pow_pos_nonneg; lia).
  apply std_clamp_saturate. lia.
Qed.

(** In the signed dot products every element added to the running sum is
    computed from the exact product of the two fields read as signed
    INBITS-bit numbers: with saturation it is that product saturated to
    the signed INBITS-bit range, without saturation its low INBITS bits
    read as signed; so the lambda returns the sum of these plus the
    accumulator, modulo 2^32. *)
Theorem signed_dot_elements_exact (d : IntDot) (S0r S1r S2 : Z) :
  intDotSigned d = true ->
  intDotC d true S0r S1r
    = zip_with (fun a b =>
                  saturate (- 2 ^ (intDotINBITS d - 1))
                    (2 ^ (intDotINBITS d - 1) - 1)
                    (truncate_sext (intDotINBITS d) a
                     * truncate_sext (intDotINBITS d) b))
        (unpack (intDotINBITS d) S0r) (unpack (intDotINBITS d) S1r) /\
  intDotC d false S0r S1r
    = zip_with (fun a b =>
                  truncate_sext (intDotINBITS d)
                    (truncate_sext (intDotINBITS d) a
                     * truncate_sext (intDotINBITS d) b))
        (unpack (intDotINBITS d) S0r) (unpack (intDotINBITS d) S1r) /\
  (forall clamp,
     intDotOpImpl d S0r S1r S2 clamp
       = to_uint32 (exactSum (intDotC d clamp S0r S1r) + S2)).
Proof.
  intros Hs.
  assert (HN : 0 < intDotINBITS d <= 16)
    by (destruct d; split; first [reflexivity | discriminate]).
  unfold intDotC. rewrite Hs. set (N := intDotINBITS d) in *.
  pose proof (unpack_fields N S0r ltac:(lia)) as F0.
  pose proof (unpack_fields N S1r ltac:(lia)) as F1.
  split; [| split].
  - unfold signedC.
    apply (zip_with_ext_Forall (fun e => 0 <= e < 2 ^ N)); [| exact F0 | exact F1].
    intros a b Ha Hb. rewrite productI_exact by (assumption || lia).
    apply elementI_saturate_exact. lia.
  - unfold signedC.
    apply (zip_with_ext_Forall (fun e => 0 <= e < 2 ^ N)); [| exact F0 | exact F1].
    intros a b Ha Hb. rewrite productI_exact by (assumption || lia).
    rewrite elementI_truncate by lia. f_equal. apply dotClampI_wrap.
    destruct (truncate_sext_field N a ltac:(lia) Ha) as [_ Ra].
    destruct (truncate_sext_field N b ltac:(lia) Hb) as [_ Rb].
    assert (Hh : 0 < 2 ^ (N - 1) <= 2 ^ 15).
    { split; [apply Z.pow_pos_nonneg | apply Z.pow_le_mono_r]; lia. }
    unfold in_signed_range, is_int32 in *. pow_consts. nia.
  - intros clamp. rewrite intDot_exact. unfold intDotC. rewrite Hs. reflexivity.
Qed.

Lemma signed_dot_elements_exact_witness :
  intDotSigned DOT2_I32_I16 = true /\
  intDotC DOT2_I32_I16 true 0x80008000 0x80008000
    = zip_with (fun a b =>
                  saturate (- 2 ^ (intDotINBITS DOT2_I32_I16 - 1))
                    (2 ^ (intDotINBITS DOT2_I32_I16 - 1) - 1)
                    (truncate_sext (intDotINBITS DOT2_I32_I16) a
                     * truncate_sext (intDotINBITS DOT2_I32_I16) b))
        (unpack (intDotINBITS DOT2_I32_I16) 0x80008000)
        (unpack (intDotINBITS DOT2_I32_I16) 0x80008000).
Proof.
  split; [reflexivity |].
  exact (proj1 (signed_dot_elements_exact DOT2_I32_I16
                  0x80008000 0x80008000 0 eq_refl)).
Defined.

Lemma productU_exact N a b :
  0 < N <= 16 -> 0 <= a < 2 ^ N -> 0 <= b < 2 ^ N ->
  productU a b = a * b /\ 0 <= a * b < 2 ^ 32.
Proof.
  intros HN Ha Hb.
  assert (Hp : 2 ^ N <= 2 ^ 16) by (apply Z.pow_le_mono_r; lia).
  pow_consts.
  assert (Hab : 0 <= a * b < 4294967296) by nia.
  split; [| exact Hab]. apply to_uint32_id. unfold is_uint32. pow_consts. lia.
Qed.

(** In the unsigned dot products the fields are multiplied exactly (the
    product of two fields of at most 16 bits fits [uint32_t]).  Without
    saturation the exact product is what is added; with saturation the
    product is capped at 2^INBITS - 1 provided it is below 2^31, and
    replaced by 0 otherwise, which cannot happen for INBITS 8 and 4. *)
Theorem unsigned_dot_elements_exact (d : IntDot) (S0r S1r : Z) :
  intDotSigned d = false ->
  intDotC d false S0r S1r
    = zip_with Z.mul (unpack (intDotINBITS d) S0r) (unpack (intDotINBITS d) S1r) /\
  intDotC d true S0r S1r
    = zip_with (fun a b => if a * b <? 2 ^ 31
                           then Z.min (a * b) (2 ^ intDotINBITS d - 1) else 0)
        (unpack (intDotINBITS d) S0r) (unpack (intDotINBITS d) S1r) /\
  (intDotINBITS d <= 8 ->
   intDotC d true S0r S1r
     = zip_with (fun a b => Z.min (a * b) (2 ^ intDotINBITS d - 1))
         (unpack (intDotINBITS d) S0r) (unpack (intDotINBITS d) S1r)).
Proof.
  intros Hs.
  assert (HN : 0 < intDotINBITS d <= 16)
    by (destruct d; split; first [reflexivity | discriminate]).
  unfold intDotC. rewrite Hs. set (N := intDotINBITS d) in *.
  pose proof (unpack_fields N S0r ltac:(lia)) as F0.
  pose proof (unpack_fields N S1r ltac:(lia)) as F1.
  assert (Hsat : forall a b, 0 <= a < 2 ^ N -> 0 <= b < 2 ^ N ->
            elementU N true (productU a b)
              = if a * b <? 2 ^ 31 then Z.min (a * b) (2 ^ N - 1) else 0).
  { intros a b Ha Hb. destruct (productU_exact N a b HN Ha Hb) as [-> Hab].
    unfold elementU. apply dotClampU_cases; [lia | exact Hab]. }
  split; [| split].
  - unfold unsignedC.
    apply (zip_with_ext_Forall (fun e => 0 <= e < 2 ^ N)); [| exact F0 | exact F1].
    intros a b Ha Hb. destruct (productU_exact N a b HN Ha Hb) as [-> Hab].
    unfold elementU, dotClampU. cbn [negb].
    rewrite to_uint32_to_int32. apply to_uint32_id, Hab.
  - unfold unsignedC.
    apply (zip_with_ext_Forall (fun e => 0 <= e < 2 ^ N)); [| exact F0 | exact F1].
    exact Hsat.
  - intros H8. unfold unsignedC.
    apply (zip_with_ext_Forall (fun e => 0 <= e < 2 ^ N)); [| exact F0 | exact F1].
    intros a b Ha Hb. rewrite Hsat by assumption.
    assert (Hp : 2 ^ N <= 2 ^ 8) by (apply Z.pow_le_mono_r; lia).
    change (2 ^ 8) with 256 in Hp. pow_consts.
    destruct (Z.ltb_spec (a * b) 2147483648); [reflexivity | nia].
Qed.

Lemma unsigned_dot_elements_exact_witness :
  intDotSigned DOT2_U32_U16 = false /\
  intDotC DOT2_U32_U16 false 0xFFFFFFFF 0xFFFFFFFF
    = zip_with Z.mul (unpack (intDotINBITS DOT2_U32_U16) 0xFFFFFFFF)
        (unpack (intDotINBITS DOT2_U32_U16) 0xFFFFFFFF).
Proof.
  split; [reflexivity |].
  exact (proj1 (unsigned_dot_elements_exact DOT2_U32_U16
                  0xFFFFFFFF 0xFFFFFFFF eq_refl)).
Defined.

(** What each lambda adds to the running sum, against the clamped
    element product: they agree in every case but one, a product from 2^31
    on in an unsigned family with saturation, where [dotClampU] returns 0. *)
Lemma intDotC_clampedProduct d clamp S0r S1r :
  intDotC d clamp S0r S1r
    = zip_with (fun a b =>
                  if negb (intDotSigned d) && clamp && (2 ^ 31 <=? a * b)
                  then 0 else clampedProduct d clamp a b)
        (unpack (intDotINBITS d) S0r) (unpack (intDotINBITS d) S1r).
Proof.
  assert (HN : 0 < intDotINBITS d <= 16)
    by (destruct d; split; first [reflexivity | discriminate]).
  unfold intDotC, clampedProduct. set (N := intDotINBITS d) in *.
  pose proof (unpack_fields N S0r ltac:(lia)) as F0.
  pose proof (unpack_fields N S1r ltac:(lia)) as F1.
  destruct (intDotSigned d); cbn [negb andb].
  - unfold signedC.
    apply (zip_with_ext_Forall (fun e => 0 <= e < 2 ^ N)); [| exact F0 | exact F1].
    intros a b Ha Hb. rewrite productI_exact by (assumption || lia).
    destruct clamp; [apply elementI_saturate_exact; lia |].
    rewrite elementI_truncate by lia. f_equal. apply dotClampI_wrap.
    destruct (truncate_sext_field N a ltac:(lia) Ha) as [_ Ra].
    destruct (truncate_sext_field N b ltac:(lia) Hb) as [_ Rb].
    assert (Hh : 0 < 2 ^ (N - 1) <= 2 ^ 15).
    { split; [apply Z.pow_pos_nonneg | apply Z.pow_le_mono_r]; lia. }
    unfold in_signed_range, is_int32 in *. pow_consts. nia.
  - unfold unsignedC.
    apply (zip_with_ext_Forall (fun e => 0 <= e < 2 ^ N)); [| exact F0 | exact F1].
    intros a b Ha Hb. destruct (productU_exact N a b HN Ha Hb) as [-> Hab].
    unfold elementU. destruct clamp.
    + rewrite dotClampU_cases by (exact Hab || lia).
      destruct (Z.ltb_spec (a * b) (2 ^ 31)); destruct (Z.leb_spec (2 ^ 31) (a * b));
        first [reflexivity | lia].
    + unfold dotClampU. cbn [negb].
      rewrite to_uint32_to_int32. apply to_uint32_id, Hab.
Qed.

(** C8, on the code.  For each of the six integer dot-product
    instructions the lambda returns the exact sum of the array C plus the
    accumulator operand, reduced modulo 2^32: the accumulator enters once,
    after the elements, and nothing clamps the sum (two runs show it
    wrapping).  On an active lane that scalar is the value of the
    destination lane.  The elements of C are the clamped element products
    in every case but one: in an unsigned family with saturation a product
    from 2^31 on is replaced by 0.  DOT2_U32_U16 on all-ones sources
    reaches that case: the clamped products are {0xFFFF, 0xFFFF} and would
    sum to 0x1FFFE, but the code accumulates {0, 0} and returns 0. *)
Theorem int_dot_sum_wraps `{FpLib} (d : IntDot) (inst : InFmt_VOP3P)
    (wf : Wavefront) (lane : nat) :
  (lane < NumVecElemPerVecReg)%nat ->
  length (vrf wf (VDST inst)) = NumVecElemPerVecReg ->
  execMask wf lane = true ->
  (forall S0r S1r S2 clamp,
     intDotOpImpl d S0r S1r S2 clamp
       = to_uint32 (exactSum (intDotC d clamp S0r S1r) + S2)) /\
  (forall S0r S1r clamp,
     intDotC d clamp S0r S1r
       = zip_with (fun a b =>
                     if negb (intDotSigned d) && clamp && (2 ^ 31 <=? a * b)
                     then 0 else clampedProduct d clamp a b)
           (unpack (intDotINBITS d) S0r) (unpack (intDotINBITS d) S1r)) /\
  readLane (execute (intDotOpcode d) inst wf) (VDST inst) lane
    = intDotOpImpl d (readLane wf (SRC0 inst) lane)
        (readLane wf (SRC1 inst) lane) (readLane wf (SRC2 inst) lane)
        (CLMP inst) /\
  (exactSum (intDotC DOT2_U32_U16 false 0xFFFFFFFF 0xFFFFFFFF) = 0x1FFFC0002 /\
   intDotOpImpl DOT2_U32_U16 0xFFFFFFFF 0xFFFFFFFF 0 false = 0xFFFC0002) /\
  (intDotC DOT4_I32_I8 true 0x7F7F7F7F 0x7F7F7F7F = [127; 127; 127; 127] /\
   intDotOpImpl DOT4_I32_I8 0x7F7F7F7F 0x7F7F7F7F 0x7FFFFFFF true = 0x800001FB) /\
  (zip_with (clampedProduct DOT2_U32_U16 true)
     (unpack 16 0xFFFFFFFF) (unpack 16 0xFFFFFFFF) = [0xFFFF; 0xFFFF] /\
   to_uint32 (exactSum [0xFFFF; 0xFFFF] + 0) = 0x1FFFE /\
   intDotC DOT2_U32_U16 true 0xFFFFFFFF 0xFFFFFFFF = [0; 0] /\
   intDotOpImpl DOT2_U32_U16 0xFFFFFFFF 0xFFFFFFFF 0 true = 0).
Proof.
  intros Hl Hlen Hm.
  split; [intros; apply intDot_exact |].
  split; [intros; apply intDotC_clampedProduct |].
  split; [destruct d; cbn [intDotOpcode execute intDotOpImpl];
          apply dotHelper_active; assumption |].
  conjuncts; vm_compute; reflexivity.
Qed.

Lemma int_dot_sum_wraps_witness :
  (2 < NumVecElemPerVecReg)%nat /\
  execMask (uniformWavefront 5 (fun reg => Z.of_nat reg * 0x01010101)) 2 = true /\
  readLane (execute (H := nullFpLib) (intDotOpcode DOT4_I32_I8)
              (mkInFmt 0 true 1 2 3)
              (uniformWavefront 5 (fun reg => Z.of_nat reg * 0x01010101)))
           (VDST (mkInFmt 0 true 1 2 3)) 2
    = intDotOpImpl DOT4_I32_I8
        (readLane (uniformWavefront 5 (fun reg => Z.of_nat reg * 0x01010101))
           (SRC0 (mkInFmt 0 true 1 2 3)) 2)
        (readLane (uniformWavefront 5 (fun reg => Z.of_nat reg * 0x01010101))
           (SRC1 (mkInFmt 0 true 1 2 3)) 2)
        (readLane (uniformWavefront 5 (fun reg => Z.of_nat reg * 0x01010101))
           (SRC2 (mkInFmt 0 true 1 2 3)) 2)
        (CLMP (mkInFmt 0 true 1 2 3)).
Proof.
  assert (Hl : (2 < NumVecElemPerVecReg)%nat) by (unfold NumVecElemPerVecReg; lia).
  assert (Hm : execMask (uniformWavefront 5
                           (fun reg => Z.of_nat reg * 0x01010101)) 2 = true)
    by reflexivity.
  split; [exact Hl |]. split; [exact Hm |].
  exact (proj1 (proj2 (proj2 (int_dot_sum_wraps (H := nullFpLib) DOT4_I32_I8
                                (mkInFmt 0 true 1 2 3)
                                (uniformWavefront 5
                                   (fun reg => Z.of_nat reg * 0x01010101))
                                2 Hl eq_refl Hm)))).
Defined.

Lemma zip_with_comm {A B} (f : A -> A -> B) :
  (forall a b, f a b = f b a) -> forall l k, zip_with f l k = zip_with f k l.
Proof.
  intros Hf l k. rewrite <- (zip_with_flip f l k).
  apply zip_with_ext; [| reflexivity | reflexivity].
  intros a b. unfold flip. apply Hf.
Qed.

Lemma intDotC_comm d clamp S0r S1r :
  intDotC d clamp S0r S1r = intDotC d clamp S1r S0r.
Proof.
  unfold intDotC, signedC, unsignedC.
  destruct (intDotSigned d); apply zip_with_comm; intros a b;
    unfold productI, productU; rewrite Z.mul_comm; reflexivity.
Qed.

Lemma int_dot_symmetric_aux d S0r S1r S2 clamp :
  intDotOpImpl d S0r S1r S2 clamp = intDotOpImpl d S1r S0r S2 clamp.
Proof. rewrite !intDot_exact, intDotC_comm. reflexivity. Qed.

(** Every integer dot product is symmetric in its two packed sources:
    swapping S0 and S1 gives the same lane result, for either value of
    the saturate flag. *)
Theorem int_dot_symmetric (d : IntDot) (S0r S1r S2 : Z) (clamp : bool) :
  intDotOpImpl d S0r S1r S2 clamp = intDotOpImpl d S1r S0r S2 clamp.
Proof. apply int_dot_symmetric_aux. Qed.

Lemma exactSum_zeros l : Forall (fun c => c = 0) l -> exactSum l = 0.
Proof.
  induction 1 as [| c l Hc _ IH]; [reflexivity |].
  unfold exactSum in *. cbn [foldr]. rewrite IH, Hc. reflexivity.
Qed.

Lemma unpack_zero N : 0 < N <= 32 -> Forall (fun e => e = 0) (unpack N 0).
Proof.
  intros HN. rewrite unpack_digits by lia.
  apply Forall_fmap, Forall_forall. intros i _. unfold compose.
  rewrite Z.div_0_l by (apply Z.pow_nonzero; nia).
  apply Z.mod_0_l, Z.pow_nonzero; lia.
Qed.

Lemma sext_zero N : sext N 0 = 0.
Proof. unfold sext. rewrite Z.testbit_0_l. reflexivity. Qed.

(** A packed source that is zero contributes nothing: when S0 or S1 is 0,
    every integer dot product returns the accumulator operand (as a
    uint32), with or without saturation. *)
Theorem int_dot_zero_source (d : IntDot) (Sr S2 : Z) (clamp : bool) :
  intDotOpImpl d 0 Sr S2 clamp = to_uint32 S2 /\
  intDotOpImpl d Sr 0 S2 clamp = to_uint32 S2.
Proof.
  assert (H0 : intDotOpImpl d 0 Sr S2 clamp = to_uint32 S2).
  { rewrite intDot_exact. f_equal.
    rewrite exactSum_zeros; [reflexivity |].
    assert (HN : 0 < intDotINBITS d <= 32)
      by (destruct d; split; first [reflexivity | discriminate]).
    unfold intDotC, signedC, unsignedC.
    destruct (intDotSigned d) eqn:Hs;
      (eapply Forall_zip_with_fst; [apply unpack_zero, HN |]);
      apply Forall_forall; intros b _ a ->.
    - unfold productI. rewrite sext_zero, Z.mul_0_l.
      destruct d, clamp; try discriminate Hs; vm_compute; reflexivity.
    - unfold productU. rewrite Z.mul_0_l.
      destruct d, clamp; try discriminate Hs; vm_compute; reflexivity. }
  split; [exact H0 |]. rewrite int_dot_symmetric_aux. exact H0.
Qed.

(** ** Accumulator-register moves: the whole effect *)

Lemma write_fold_mask wf reg buf ls : forall w,
  execMaskBits (foldl (writeStep wf reg buf) w ls) = execMaskBits w.
Proof.
  induction ls as [| l ls IH]; intros w; cbn [foldl]; [reflexivity |].
  rewrite IH. unfold writeStep. destruct (execMask wf l); reflexivity.
Qed.

Lemma write_fold_outside wf reg buf ls r lane :
  ~ elem_of lane ls ->
  forall w, readLane (foldl (writeStep wf reg buf) w ls) r lane = readLane w r lane.
Proof.
  induction ls as [| l ls IH]; intros Hin w; cbn [foldl]; [reflexivity |].
  apply not_elem_of_cons in Hin. destruct Hin as [Hne Hin].
  rewrite IH by exact Hin. unfold writeStep.
  destruct (execMask wf l); [| reflexivity].
  apply readLane_writeLane_ne. congruence.
Qed.

Lemma write_fold_other_reg wf reg buf ls r lane :
  r <> reg ->
  forall w, readLane (foldl (writeStep wf reg buf) w ls) r lane = readLane w r lane.
Proof.
  intros Hr. induction ls as [| l ls IH]; intros w; cbn [foldl]; [reflexivity |].
  rewrite IH. unfold writeStep. destruct (execMask wf l); [| reflexivity].
  unfold readLane, writeLane. cbn [vrf].
  rewrite fn_lookup_insert_ne by congruence. reflexivity.
Qed.

(** Every lane of every register after [write]. *)
Lemma write_effect wf reg buf r lane :
  length (vrf wf reg) = NumVecElemPerVecReg ->
  readLane (write wf reg buf) r lane
    = if (r =? reg)%nat && (lane <? NumVecElemPerVecReg)%nat && execMask wf lane
      then buf !!! lane else readLane wf r lane.
Proof.
  intros Hlen.
  destruct (Nat.eqb_spec r reg) as [-> | Hr]; cbn [andb];
    [| apply write_fold_other_reg, Hr].
  destruct (Nat.ltb_spec lane NumVecElemPerVecReg) as [Hl | Hl]; cbn [andb].
  - destruct (execMask wf lane) eqn:Hm.
    + apply write_active; assumption.
    + apply write_inactive, Hm.
  - apply write_fold_outside. rewrite elem_of_seq. lia.
Qed.

Lemma accvgpr_effect inst wf reg lane :
  length (vrf wf (VDST inst)) = NumVecElemPerVecReg ->
  readLane (Inst_VOP3P__V_ACCVGPR_READ.execute inst wf) reg lane
    = if (reg =? VDST inst)%nat && (lane <? NumVecElemPerVecReg)%nat
         && execMask wf lane
      then readLane wf (SRC0 inst) lane else readLane wf reg lane.
Proof.
  intros Hlen. unfold Inst_VOP3P__V_ACCVGPR_READ.execute.
  rewrite write_effect by exact Hlen.
  destruct (Nat.eqb_spec reg (VDST inst)); cbn [andb]; [| reflexivity].
  destruct (Nat.ltb_spec lane NumVecElemPerVecReg); cbn [andb]; [| reflexivity].
  destruct (execMask wf lane) eqn:Hm; [| reflexivity].
  rewrite forActiveLanes_active by assumption. reflexivity.
Qed.

Lemma accvgpr_mask inst wf :
  execMaskBits (Inst_VOP3P__V_ACCVGPR_READ.execute inst wf) = execMaskBits wf.
Proof.
  unfold Inst_VOP3P__V_ACCVGPR_READ.execute, write. apply write_fold_mask.
Qed.

Lemma accvgpr_length inst wf :
  length (vrf (Inst_VOP3P__V_ACCVGPR_READ.execute inst wf) (VDST inst))
    = length (vrf wf (VDST inst)).
Proof.
  unfold Inst_VOP3P__V_ACCVGPR_READ.execute, write. apply write_fold_length.
Qed.

Lemma accvgpr_write_is_read inst wf :
  Inst_VOP3P__V_ACCVGPR_WRITE.execute inst wf
    = Inst_VOP3P__V_ACCVGPR_READ.execute inst wf.
Proof.
  unfold Inst_VOP3P__V_ACCVGPR_READ.execute,
         Inst_VOP3P__V_ACCVGPR_WRITE.execute. reflexivity.
Qed.

(** The whole effect of ACCVGPR_READ and ACCVGPR_WRITE on a wavefront
    whose destination register has its 64 lanes: the execution mask is
    unchanged, and a lane of a register changes only if the register is
    VDST, the lane index is below 64 and the lane is active, in which case
    it takes the value the same lane of SRC0 had before the instruction.
    No other register, and no lane beyond the 64, is touched. *)
Theorem accvgpr_move_effect (inst : InFmt_VOP3P) (wf : Wavefront)
    (reg lane : nat) :
  length (vrf wf (VDST inst)) = NumVecElemPerVecReg ->
  execMaskBits (Inst_VOP3P__V_ACCVGPR_READ.execute inst wf) = execMaskBits wf /\
  execMaskBits (Inst_VOP3P__V_ACCVGPR_WRITE.execute inst wf) = execMaskBits wf /\
  readLane (Inst_VOP3P__V_ACCVGPR_READ.execute inst wf) reg lane
    = (if (reg =? VDST inst)%nat && (lane <? NumVecElemPerVecReg)%nat
          && execMask wf lane
       then readLane wf (SRC0 inst) lane else readLane wf reg lane) /\
  readLane (Inst_VOP3P__V_ACCVGPR_WRITE.execute inst wf) reg lane
    = (if (reg =? VDST inst)%nat && (lane <? NumVecElemPerVecReg)%nat
          && execMask wf lane
       then readLane wf (SRC0 inst) lane else readLane wf reg lane).
Proof.
  intros Hlen. rewrite (accvgpr_write_is_read inst wf).
  pose proof (accvgpr_mask inst wf) as Hm.
  pose proof (accvgpr_effect inst wf reg lane Hlen) as He.
  exact (conj Hm (conj Hm (conj He He))).
Qed.

Lemma accvgpr_move_effect_witness :
  length (vrf (uniformWavefront 5 (fun reg => Z.of_nat reg + 10)) 0)
    = NumVecElemPerVecReg /\
  execMaskBits (Inst_VOP3P__V_ACCVGPR_READ.execute (mkInFmt 0 false 1 0 0)
                  (uniformWavefront 5 (fun reg => Z.of_nat reg + 10)))
    = execMaskBits (uniformWavefront 5 (fun reg => Z.of_nat reg + 10)).
Proof.
  split; [reflexivity |].
  exact (proj1 (accvgpr_move_effect (mkInFmt 0 false 1 0 0)
                  (uniformWavefront 5 (fun reg => Z.of_nat reg + 10))
                  7 3 eq_refl)).
Defined.

(** Running ACCVGPR_READ (or ACCVGPR_WRITE) a second time changes
    nothing: after one execution every lane of every register already
    holds what a second execution would write, also when SRC0 and VDST are
    the same register. *)
Theorem accvgpr_move_idempotent (inst : InFmt_VOP3P) (wf : Wavefront)
    (reg lane : nat) :
  length (vrf wf (VDST inst)) = NumVecElemPerVecReg ->
  readLane (Inst_VOP3P__V_ACCVGPR_READ.execute inst
              (Inst_VOP3P__V_ACCVGPR_READ.execute inst wf)) reg lane
    = readLane (Inst_VOP3P__V_ACCVGPR_READ.execute inst wf) reg lane /\
  readLane (Inst_VOP3P__V_ACCVGPR_WRITE.execute inst
              (Inst_VOP3P__V_ACCVGPR_WRITE.execute inst wf)) reg lane
    = readLane (Inst_VOP3P__V_ACCVGPR_WRITE.execute inst wf) reg lane.
Proof.
  intros Hlen. rewrite (accvgpr_write_is_read inst wf).
  rewrite (accvgpr_write_is_read inst
             (Inst_VOP3P__V_ACCVGPR_READ.execute inst wf)).
  assert (E : readLane (Inst_VOP3P__V_ACCVGPR_READ.execute inst
                          (Inst_VOP3P__V_ACCVGPR_READ.execute inst wf)) reg lane
              = readLane (Inst_VOP3P__V_ACCVGPR_READ.execute inst wf) reg lane).
  { rewrite (accvgpr_effect inst (Inst_VOP3P__V_ACCVGPR_READ.execute inst wf))
      by (rewrite accvgpr_length; exact Hlen).
    unfold execMask at 1. rewrite accvgpr_mask. fold (execMask wf lane).
    rewrite !(accvgpr_effect inst wf) by exact Hlen.
    destruct ((reg =? VDST inst)%nat && (lane <? NumVecElemPerVecReg)%nat
              && execMask wf lane) eqn:Hc; [| reflexivity].
    apply andb_prop in Hc. destruct Hc as [Hc Hm].
    apply andb_prop in Hc. destruct Hc as [_ Hl].
    rewrite Hl, Hm, andb_true_r.
    destruct (SRC0 inst =? VDST inst)%nat; reflexivity. }
  split; exact E.
Qed.

Lemma accvgpr_move_idempotent_witness :
  length (vrf (uniformWavefront 5 (fun reg => Z.of_nat reg + 10)) 0)
    = NumVecElemPerVecReg /\
  readLane (Inst_VOP3P__V_ACCVGPR_READ.execute (mkInFmt 0 false 1 0 0)
              (Inst_VOP3P__V_ACCVGPR_READ.execute (mkInFmt 0 false 1 0 0)
                 (uniformWavefront 5 (fun reg => Z.of_nat reg + 10)))) 0 2
    = readLane (Inst_VOP3P__V_ACCVGPR_READ.execute (mkInFmt 0 false 1 0 0)
                  (uniformWavefront 5 (fun reg => Z.of_nat reg + 10))) 0 2.
Proof.
  split; [reflexivity |].
  exact (proj1 (accvgpr_move_idempotent (mkInFmt 0 false 1 0 0)
                  (uniformWavefront 5 (fun reg => Z.of_nat reg + 10))
                  0 2 eq_refl)).
Defined.
